(** * torchio [Resample]: a shallow embedding of
    [torchio/transforms/preprocessing/spatial/resample.py]

    The transform resamples every image of a subject onto a reference grid
    that is either built from a target spacing, taken from an in-memory
    image, or taken from a sibling image named by a key of the subject.

    Conventions of the embedding:
    - Python [float]/[int] values are exact rationals ([Q]); binary64
      rounding is not modelled.  The [np.uint16] cast is modelled exactly,
      as reduction modulo [2^16].
    - Python objects with identity (images) live in a heap indexed by
      locations; [image is self.reference_image] is equality of locations.
    - A Python exception is a value of [exn]; a call that can raise returns
      a [result], a method that also mutates images runs in the monad [M],
      whose heap survives a raise (as the interpreter's heap does).
    - SimpleITK and the [Image] class are not part of the file; what the
      transform asks of them is the interface [Backend]. *)

From Stdlib Require Import ZArith QArith Qround Lia PrimFloat.
From stdpp Require Import base option list gmap strings.

Local Open Scope Z_scope.

(** ** Python values *)

(** [type(x)], as it is printed in the error messages. *)
Inductive pytype :=
| ty_NoneType | ty_int | ty_float | ty_str | ty_PosixPath
| ty_tuple | ty_list | ty_ndarray | ty_Tensor | ty_Image.

(** Heap locations: the identity of an [Image] object. *)
Definition loc := positive.

(** Values that reach [target] and [parse_spacing]: [None], a number
    (an instance of [numbers.Number]), a [str], a [pathlib.Path], a tuple or
    a list of numbers, an [Image] instance. *)
Inductive pyobj :=
| PyNone
| PyNumber (q : Q)
| PyStr (s : string)
| PyPath (s : string)
| PyTuple (items : list Q)
| PyList (items : list Q)
| PyImage (l : loc).

Definition type_of (o : pyobj) : pytype :=
  match o with
  | PyNone => ty_NoneType
  | PyNumber _ => ty_float
  | PyStr _ => ty_str
  | PyPath _ => ty_PosixPath
  | PyTuple _ => ty_tuple
  | PyList _ => ty_list
  | PyImage _ => ty_Image
  end.

(** Hashable values used as dictionary keys and as [pre_affine_name]:
    strings, and integers standing for the keys that are not strings. *)
Inductive pykey :=
| KStr (s : string)
| KInt (z : Z).

#[global] Instance pykey_eq_dec : EqDecision pykey.
Proof. solve_decision. Defined.

#[global] Instance pykey_countable : Countable pykey.
Proof.
  refine (inj_countable'
    (fun k => match k with KStr s => inl s | KInt z => inr z end)
    (fun x => match x with inl s => KStr s | inr z => KInt z end) _).
  by intros [].
Defined.

Definition key_type (k : pykey) : pytype :=
  match k with KStr _ => ty_str | KInt _ => ty_int end.

(** ** Exceptions *)

(** The text of each message, with the values it interpolates. *)
Inductive message :=
| msg_target_type (t : pytype)
    (* Target must be a string, a positive number or a tuple of positive
       numbers, not {type(spacing)} *)
| msg_spacing_positive (spacing : pyobj)
    (* Spacing must be positive, not {spacing} *)
| msg_affine_name_type (t : pytype)
    (* Affine name argument must be a string, not {type(affine_name)} *)
| msg_affine_matrix_type (t : pytype)
    (* The affine matrix must be a NumPy array or PyTorch tensor, not ... *)
| msg_affine_matrix_shape (shape : list nat)
    (* The affine matrix shape must be (4, 4), not {matrix.shape} *)
| msg_affine_name_not_found (k : pykey)
    (* An affine name was given ({affine_name}), but it was not found in
       any image in the subject *)
| msg_reference_not_found (name : string)
    (* Reference name {self.reference_image} not found in subject *)
| msg_numpy (what : string).
    (* raised inside NumPy: shapes that do not broadcast or multiply *)

Inductive exn :=
| ValueError (m : message)
| TypeError (m : message)
| KeyError (k : pykey)
| AttributeError (attr : string)
| AssertionError
| UnboundLocalError (var : string).

Inductive result (A : Type) :=
| Ok (a : A)
| Raise (e : exn).
Arguments Ok {A} a.
Arguments Raise {A} e.

Definition result_bind {A B} (r : result A) (k : A -> result B) : result B :=
  match r with Ok a => k a | Raise e => Raise e end.

(** ** [parse_spacing] *)

Definition Qle0 (q : Q) : bool := Qle_bool q 0.

(** [np.any(np.array(spacing) <= 0)], for the two shapes that reach it. *)
Definition any_non_positive (spacing : pyobj) : bool :=
  match spacing with
  | PyNumber q => Qle0 q
  | PyTuple items => existsb Qle0 items
  | _ => false
  end.

Definition parse_spacing (spacing : pyobj) : result (list Q) :=
  result_bind
    (match spacing with
     | PyTuple items =>
         if (length items =? 3)%nat then Ok items
         else Raise (ValueError (msg_target_type (type_of spacing)))
     | PyNumber q => Ok [q; q; q]
     | _ => Raise (ValueError (msg_target_type (type_of spacing)))
     end)
    (fun res =>
       if any_non_positive spacing
       then Raise (ValueError (msg_spacing_positive spacing))
       else Ok res).

(** Whether a value has a component that is not positive. *)
Definition has_non_positive (o : pyobj) : Prop :=
  match o with
  | PyNumber q => (q <= 0)%Q
  | PyTuple items | PyList items => Exists (fun q => (q <= 0)%Q) items
  | _ => False
  end.

(** ** SimpleITK images and [get_reference_image] *)

(** The pixel buffer of an image; a freshly constructed image is
    zero-filled. *)
Inductive buffer :=
| Zeros
| Pixels (values : list Q).

(** A [sitk.Image]: geometry, pixel type and pixels.  [GetDirection] is the
    direction matrix flattened row by row.  The dimension is the length of
    the size. *)
Record sitk_Image := {
  GetSize : list Z;
  GetSpacing : list Q;
  GetOrigin : list Q;
  GetDirection : list Q;
  GetPixelID : Z;
  GetNumberOfComponentsPerPixel : Z;
  GetBuffer : buffer
}.

Definition GetDimension (image : sitk_Image) : nat := length (GetSize image).

(** The lists of a well-formed image agree on the dimension. *)
Definition sitk_wf (image : sitk_Image) : Prop :=
  let d := GetDimension image in
  length (GetSpacing image) = d /\ length (GetOrigin image) = d /\
  length (GetDirection image) = (d * d)%nat.

(** Element-wise NumPy arithmetic on one-dimensional arrays of one length.
    Operands of different lengths do not broadcast. *)
Definition np_zip {A B C} (f : A -> B -> C) (a : list A) (b : list B)
  : result (list C) :=
  if (length a =? length b)%nat then Ok (zip_with f a b)
  else Raise (ValueError (msg_numpy "operands could not be broadcast together")).

Definition Z2Q (z : Z) : Q := inject_Z z.

(** [.astype(np.uint16)] of an integral float. *)
Definition astype_uint16 (z : Z) : Z := z mod 2 ^ 16.

(** [new_size[old_size == 1] = 1]. *)
Definition keep_singleton (new_size old_size : list Z) : list Z :=
  zip_with (fun n o => if o =? 1 then 1 else n) new_size old_size.

Definition Qsum (l : list Q) : Q := foldr Qplus 0%Q l.

(** Row [i] of a flattened [d]x[d] matrix. *)
Definition row (d : nat) (m : list Q) (i : nat) : list Q :=
  take d (drop (i * d) m).

(** ITK's index-to-physical-point map:
    [origin + direction * diag(spacing) * index]. *)
Definition TransformContinuousIndexToPhysicalPoint
    (image : sitk_Image) (index : list Q) : list Q :=
  let d := GetDimension image in
  let scaled := zip_with Qmult (GetSpacing image) index in
  zip_with Qplus (GetOrigin image)
    (map (fun i => Qsum (zip_with Qmult (row d (GetDirection image) i) scaled))
         (seq 0 d)).

Definition get_reference_image (image : sitk_Image) (spacing : list Q)
  : result sitk_Image :=
  let old_spacing := GetSpacing image in
  let new_spacing := spacing in
  let old_size := GetSize image in
  result_bind (np_zip (fun n s => (Z2Q n * s)%Q) old_size old_spacing) (fun prod =>
  result_bind (np_zip Qdiv prod new_spacing) (fun new_size =>
  let new_size := map (fun q => astype_uint16 (Qceiling q)) new_size in
  let new_size := keep_singleton new_size old_size in
  result_bind (np_zip Qdiv new_spacing old_spacing) (fun ratio =>
  let new_origin_index := map (fun r => ((1 # 2) * (r - 1))%Q) ratio in
  let new_origin_lps :=
    TransformContinuousIndexToPhysicalPoint image new_origin_index in
  Ok {| GetSize := new_size;
        GetSpacing := new_spacing;
        GetOrigin := new_origin_lps;
        GetDirection := GetDirection image;
        GetPixelID := GetPixelID image;
        GetNumberOfComponentsPerPixel := GetNumberOfComponentsPerPixel image;
        GetBuffer := Zeros |}))).

(** The size the spec's formula gives on one axis, before the cast. *)
Definition true_ceiling (old_size : Z) (old_spacing new_spacing : Q) : Z :=
  Qceiling (Z2Q old_size * old_spacing / new_spacing).


(** A geometry with identity direction and origin zero. *)
Definition grid (size : list Z) (spacing : list Q) : sitk_Image :=
  {| GetSize := size;
     GetSpacing := spacing;
     GetOrigin := map (fun _ => 0%Q) size;
     GetDirection :=
       i ← seq 0 (length size); j ← seq 0 (length size);
       [if (i =? j)%nat then 1%Q else 0%Q];
     GetPixelID := 9;
     GetNumberOfComponentsPerPixel := 1;
     GetBuffer := Zeros |}.

(** ** Binary64 rounding

    [get_reference_image] is embedded with exact rationals.  The quotient
    it takes the ceiling of is evaluated here in binary64, to tell which of
    the concrete sizes used below are exact and where rounding shows. *)
Module Binary64.

Definition size_quotient (old_size old_spacing new_spacing : float) : float :=
  (old_size * old_spacing / new_spacing)%float.

(** The binary64 number nearest to one tenth. *)
Definition tenth : float := 0x1.999999999999ap-4%float.

End Binary64.

(** ** Images, subjects and the heap *)

(** A NumPy array or PyTorch tensor: shape and elements in row-major
    order. *)
Record ndarray := { shape : list nat; elems : list Q }.

(** Values stored under the keys of an image. *)
Inductive pyval :=
| VNone
| VStr (s : string)
| VNumber (q : Q)
| VArray (a : ndarray)
| VTensor (a : ndarray).

Definition val_type (v : pyval) : pytype :=
  match v with
  | VNone => ty_NoneType
  | VStr _ => ty_str
  | VNumber _ => ty_float
  | VArray _ => ty_ndarray
  | VTensor _ => ty_Tensor
  end.

(** An [Image] is a [dict] with a class: [is_ScalarImage] is
    [isinstance(image, ScalarImage)], [items] the dictionary. *)
Record Image := {
  is_ScalarImage : bool;
  items : gmap pykey pyval
}.

#[global] Instance Image_inhabited : Inhabited Image :=
  populate {| is_ScalarImage := false; items := ∅ |}.

Definition DATA : pykey := KStr "data".
Definition AFFINE : pykey := KStr "affine".

(** [key in image] *)
Definition contains (k : pykey) (image : Image) : bool :=
  bool_decide (is_Some (items image !! k)).

(** [image[key]] *)
Definition getitem (image : Image) (k : pykey) : result pyval :=
  match items image !! k with
  | Some v => Ok v
  | None => Raise (KeyError k)
  end.

(** [image[key] = value], on the dictionary *)
Definition set_item (image : Image) (k : pykey) (v : pyval) : Image :=
  {| is_ScalarImage := is_ScalarImage image; items := <[k := v]> (items image) |}.

(** The entries of a [Subject]: images (by reference) and anything else. *)
Inductive entry :=
| EImage (l : loc)
| EOther (v : pyval).

(** A [Subject] is a [dict]; insertion order is the order of the list. *)
Definition Subject := list (string * entry).

(** [subject[key]] *)
Fixpoint subject_getitem (subject : Subject) (key : string) : option entry :=
  match subject with
  | [] => None
  | (k, e) :: rest => if decide (k = key) then Some e else subject_getitem rest key
  end.

(** Modelled from the spec: [Subject.get_images(intensity_only=False)] and
    the transform's [get_images(subject)] are not in the file; the spec's
    Bundle.list_images gives the images of the bundle in their stored
    order. *)
Definition get_images (subject : Subject) : list loc :=
  omap (fun ke => match ke.2 with EImage l => Some l | EOther _ => None end) subject.

(** ** Interpolation *)

(** The names the class docstring lists as supported. *)
Inductive interpolation := nearest | linear | bspline.

Inductive sitk_interpolator := sitkNearestNeighbor | sitkLinear | sitkBSpline.

(** Modelled from the spec: [get_sitk_interpolator] is inherited from
    [Transform], which is not in the file; it maps the name of a kernel to
    SimpleITK's constant for that kernel. *)
Definition get_sitk_interpolator (i : interpolation) : sitk_interpolator :=
  match i with
  | nearest => sitkNearestNeighbor
  | linear => sitkLinear
  | bspline => sitkBSpline
  end.

(** ** The monad of methods that mutate images *)

(** The state a method runs in.  [heap] maps the location of every [Image]
    object to its state; a location outside its domain reads as an empty
    image.  [executed] is ghost state: the calls of the resampling filter
    made so far, each with the image being resampled and the interpolator,
    oldest first. *)
Record world := {
  heap : gmap loc Image;
  executed : list (loc * sitk_interpolator)
}.

Definition M (A : Type) : Type := world -> world * result A.

#[global] Instance M_ret : MRet M := fun A a w => (w, Ok a).
#[global] Instance M_bind : MBind M := fun A B k m w =>
  match m w with
  | (w', Ok a) => k a w'
  | (w', Raise e) => (w', Raise e)
  end.

Definition raise {A} (e : exn) : M A := fun w => (w, Raise e).
Definition lift {A} (r : result A) : M A := fun w => (w, r).
Definition deref (l : loc) : M Image := fun w => (w, Ok (heap w !!! l)).
Definition setitem (l : loc) (k : pykey) (v : pyval) : M unit := fun w =>
  ({| heap := <[l := set_item (heap w !!! l) k v]> (heap w);
      executed := executed w |}, Ok tt).

(** ** What the transform asks of SimpleITK and of [Image] *)

Class Backend := {
  (** [Path(target).is_file()] *)
  is_file : string -> bool;
  (** [ScalarImage(path)] *)
  load_ScalarImage : string -> Image;
  (** [image.spacing] *)
  Image_spacing : Image -> list Q;
  (** [image.as_sitk(force_3d=...)]; [None] when the argument is omitted *)
  as_sitk : option bool -> Image -> sitk_Image;
  (** [ResampleImageFilter]: interpolator, reference image, floating image *)
  Execute : sitk_interpolator -> sitk_Image -> sitk_Image -> sitk_Image;
  (** [sitk_to_nib(resampled)]: the array and the affine *)
  sitk_to_nib : sitk_Image -> ndarray * ndarray
}.

(** ** NumPy matrix product *)

Definition at_index (a : ndarray) (i : nat) : Q := nth i (elems a) 0%Q.

(** [a @ b] for a two-dimensional [a] and a one- or two-dimensional [b]. *)
Definition matmul (a b : ndarray) : result ndarray :=
  match shape a, shape b with
  | [n; k], [k'; m] =>
      if (k =? k')%nat then
        Ok {| shape := [n; m];
              elems := i ← seq 0 n; j ← seq 0 m;
                [Qsum (map (fun l => (at_index a (i * k + l) * at_index b (l * m + j))%Q)
                           (seq 0 k))] |}
      else Raise (ValueError (msg_numpy "matmul: mismatch in core dimension"))
  | [n; k], [k'] =>
      if (k =? k')%nat then
        Ok {| shape := [n];
              elems := i ← seq 0 n;
                [Qsum (map (fun l => (at_index a (i * k + l) * at_index b l)%Q)
                           (seq 0 k))] |}
      else Raise (ValueError (msg_numpy "matmul: mismatch in core dimension"))
  | _, _ => Raise (ValueError (msg_numpy "matmul: unsupported shapes"))
  end.

(** [matrix @ value], where [matrix] is a NumPy array and [value] whatever
    is stored under the affine key. *)
Definition py_matmul (matrix : ndarray) (value : pyval) : result pyval :=
  match value with
  | VArray b => result_bind (matmul matrix b) (fun c => Ok (VArray c))
  | _ => Raise (TypeError (msg_numpy "matmul: unsupported operand type"))
  end.

(** ** The transform *)

(** The attributes of a [Resample] object that [apply_transform] reads.
    [reference_image] is [None], the target itself (a [str] or a [Path])
    or an image. *)
Record Resample := {
  reference_image : pyobj;
  target_spacing : option (list Q);
  image_interpolation : interpolation;
  pre_affine_name : option pykey;
  scalars_only : bool
}.

Section Transform.
Context `{B : Backend}.

(** [ScalarImage(path)]: a new object. *)
Definition new_ScalarImage (path : string) : M loc := fun w =>
  let l := fresh (dom (heap w)) in
  ({| heap := <[l := load_ScalarImage path]> (heap w);
      executed := executed w |}, Ok l).

(** [resampler.Execute(floating_itk)], on behalf of [image]. *)
Definition execute (image : loc) (interpolator : sitk_interpolator)
    (reference floating : sitk_Image) : M sitk_Image := fun w =>
  ({| heap := heap w; executed := executed w ++ [(image, interpolator)] |},
   Ok (Execute interpolator reference floating)).

Definition parse_target (target : pyobj) : M (pyobj * option (list Q)) :=
  match target with
  | PyStr s | PyPath s =>
      if is_file s then
        l ← new_ScalarImage s;
        mret (PyImage l, None)
      else mret (target, None)
  | PyImage l =>
      image ← deref l;
      mret (target, Some (Image_spacing image))
  | _ =>
      spacing ← lift (parse_spacing target);
      mret (PyNone, Some spacing)
  end.

(** [__init__]; [image_interpolation] is given as [parse_interpolation],
    inherited from [Transform], returns it. *)
Definition init (target : pyobj) (image_interpolation : interpolation)
    (pre_affine_name : option pykey) (scalars_only : bool) : M Resample :=
  parsed ← parse_target target;
  mret {| reference_image := parsed.1;
          target_spacing := parsed.2;
          image_interpolation := image_interpolation;
          pre_affine_name := pre_affine_name;
          scalars_only := scalars_only |}.

Definition check_affine (affine_name : pykey) (image_dict : Image) : result unit :=
  match affine_name with
  | KStr _ =>
      match items image_dict !! affine_name with
      | Some matrix =>
          match matrix with
          | VArray a | VTensor a =>
              if bool_decide (shape a = [4; 4]%nat) then Ok tt
              else Raise (ValueError (msg_affine_matrix_shape (shape a)))
          | _ => Raise (TypeError (msg_affine_matrix_type (val_type matrix)))
          end
      | None => Ok tt
      end
  | _ => Raise (TypeError (msg_affine_name_type (key_type affine_name)))
  end.

Definition check_affine_key_presence (affine_name : pykey) (subject : Subject)
  : M unit := fun w =>
  if existsb (fun l => contains affine_name (heap w !!! l)) (get_images subject)
  then (w, Ok tt)
  else (w, Raise (ValueError (msg_affine_name_not_found affine_name))).

(** [image is self.reference_image] *)
Definition is_reference (self : Resample) (image : loc) : bool :=
  match reference_image self with
  | PyImage r => bool_decide (image = r)
  | _ => false
  end.

(** "Choose interpolation": [None] stands for [continue]. *)
Definition choose_interpolation (self : Resample) (image : Image)
  : option interpolation :=
  if negb (is_ScalarImage image) then
    if scalars_only self then None else Some nearest
  else Some (image_interpolation self).

(** [matrix.numpy()] for a tensor; an array is used as it is. *)
Definition as_numpy (matrix : pyval) : result ndarray :=
  match matrix with
  | VArray a | VTensor a => Ok a
  | _ => Raise (TypeError (msg_numpy "matmul: unsupported operand type"))
  end.

(** "Apply given affine matrix if found in image".  [use_pre_affine] is
    [pre_affine_name is not None]. *)
Definition apply_pre_affine (self : Resample) (image : loc) : M unit :=
  match pre_affine_name self with
  | Some name =>
      img ← deref image;
      if contains name img then
        lift (check_affine name img);;
        matrix ← lift (getitem img name);
        matrix ← lift (as_numpy matrix);
        affine ← lift (getitem img AFFINE);
        new_affine ← lift (py_matmul matrix affine);
        setitem image AFFINE new_affine
      else mret tt
  | None => mret tt
  end.

(** "Resample", first half: the reference image of this iteration.  When no
    branch of the [if]/[elif] chain is taken the local variable is never
    bound, and its first use raises. *)
Definition resolve_reference (self : Resample) (subject : Subject)
    (floating_itk : sitk_Image) : M sitk_Image :=
  match reference_image self with
  | PyStr name =>
      match subject_getitem subject name with
      | Some (EImage r) => ref ← deref r; mret (as_sitk None ref)
      | Some (EOther _) => raise (AttributeError "as_sitk")
      | None => raise (ValueError (msg_reference_not_found name))
      end
  | PyImage r => ref ← deref r; mret (as_sitk (Some true) ref)
  | PyNone =>
      match target_spacing self with
      | Some spacing => lift (get_reference_image floating_itk spacing)
      | None => raise (TypeError (msg_numpy "unsupported operand type"))
      end
  | _ => raise (UnboundLocalError "reference_image_sitk")
  end.

(** The rest of an iteration, once the interpolator is chosen. *)
Definition resample_image (self : Resample) (subject : Subject) (image : loc)
    (interpolator : sitk_interpolator) : M unit :=
  apply_pre_affine self image;;
  img ← deref image;
  let floating_itk := as_sitk (Some true) img in
  reference_image_sitk ← resolve_reference self subject floating_itk;
  if (GetDimension reference_image_sitk =? GetDimension floating_itk)%nat
  then
    resampled ← execute image interpolator reference_image_sitk floating_itk;
    let '(array, affine) := sitk_to_nib resampled in
    setitem image DATA (VTensor array);;
    setitem image AFFINE (VArray affine)
  else raise AssertionError.

(** One iteration of the loop of [apply_transform]. *)
Definition process_image (self : Resample) (subject : Subject) (image : loc)
  : M unit :=
  if is_reference self image then mret tt
  else
    img ← deref image;
    match choose_interpolation self img with
    | None => mret tt
    | Some interpolation =>
        resample_image self subject image (get_sitk_interpolator interpolation)
    end.

Fixpoint for_each (body : loc -> M unit) (images : list loc) : M unit :=
  match images with
  | [] => mret tt
  | image :: rest => body image;; for_each body rest
  end.

Definition apply_transform (self : Resample) (subject : Subject) : M unit :=
  match pre_affine_name self with
  | Some name => check_affine_key_presence name subject
  | None => mret tt
  end;;
  for_each (process_image self subject) (get_images subject).

(** ** Relations between worlds used in the statements *)

(** The exceptions of the second half of an iteration that no earlier step
    raises: the reference name is not a key of the subject, the subject's
    entry is not an image, the dimensions differ, no reference was bound. *)
Definition raised_by_reference (e : exn) : Prop :=
  match e with
  | ValueError (msg_reference_not_found _) => True
  | AttributeError _ => True
  | AssertionError => True
  | UnboundLocalError _ => True
  | _ => False
  end.


(** [w'] is [w] with [value] stored under [key] of [image]. *)
Definition stored (image : loc) (key : pykey) (value : pyval) (w : world) : world :=
  {| heap := <[image := set_item (heap w !!! image) key value]> (heap w);
     executed := executed w |}.

(** [w'] is [w] after the pre-affine correction of [image]: its affine was
    replaced by [matrix @ affine], where [matrix] is the 4x4 array or tensor
    the image stores under the configured key; nothing else changed. *)
Definition affine_corrected (self : Resample) (image : loc) (w w' : world) : Prop :=
  exists name matrix a affine new_affine,
    pre_affine_name self = Some name /\
    items (heap w !!! image) !! name = Some matrix /\
    as_numpy matrix = Ok a /\
    shape a = [4; 4]%nat /\
    items (heap w !!! image) !! AFFINE = Some affine /\
    py_matmul a affine = Ok new_affine /\
    w' = stored image AFFINE new_affine w.

(** [w'] is [w] after [image] was resampled with [interpolator]: one call
    of the filter was made for it, and its data and affine were overwritten
    with the result. *)
Definition resampled_with (interpolator : sitk_interpolator) (image : loc)
    (w w' : world) : Prop :=
  exists reference floating,
    let out := sitk_to_nib (Execute interpolator reference floating) in
    w' = stored image AFFINE (VArray out.2)
           (stored image DATA (VTensor out.1)
              {| heap := heap w;
                 executed := executed w ++ [(image, interpolator)] |}).

End Transform.

(** ** A backend for axis-aligned images

    The theorems below hold for every backend.  To run the transform on
    concrete subjects, this instance implements the interface for images
    whose affine is diagonal plus translation: spacing is the diagonal,
    origin the last column, direction the identity, and resampling is
    nearest-neighbour sampling of the floating image at the centres of the
    reference grid (zero outside), whatever the interpolator. *)
Module AxisAligned.

Definition empty_image : sitk_Image :=
  {| GetSize := []; GetSpacing := []; GetOrigin := []; GetDirection := [];
     GetPixelID := 0; GetNumberOfComponentsPerPixel := 0; GetBuffer := Zeros |}.

Definition identity (d : nat) : list Q :=
  i ← seq 0 d; j ← seq 0 d; [if (i =? j)%nat then 1%Q else 0%Q].

Definition as_sitk (force_3d : option bool) (image : Image) : sitk_Image :=
  match items image !! DATA, items image !! AFFINE with
  | Some (VTensor data), Some (VArray affine) =>
      match shape data with
      | [c; w; h; d] =>
          let dim := if (d =? 1)%nat && negb (bool_decide (force_3d = Some true))
                     then 2%nat else 3%nat in
          {| GetSize := take dim [Z.of_nat w; Z.of_nat h; Z.of_nat d];
             GetSpacing := take dim [at_index affine 0; at_index affine 5; at_index affine 10];
             GetOrigin := take dim [at_index affine 3; at_index affine 7; at_index affine 11];
             GetDirection := identity dim;
             GetPixelID := 9;
             GetNumberOfComponentsPerPixel := Z.of_nat c;
             GetBuffer := Pixels (elems data) |}
      | _ => empty_image
      end
  | _, _ => empty_image
  end.

(** Every index of a grid, first axis fastest. *)
Fixpoint indices (size : list Z) : list (list Z) :=
  match size with
  | [] => [[]]
  | n :: rest => tl ← indices rest; i ← seq 0 (Z.to_nat n); [Z.of_nat i :: tl]
  end.

(** The offset in the buffer of the voxel of [floating] nearest to the
    centre of voxel [index] of [reference], when there is one. *)
Fixpoint nearest_offset (size : list Z) (o_r s_r o_f s_f : list Q) (index : list Z)
  : option Z :=
  match size, o_r, s_r, o_f, s_f, index with
  | [], _, _, _, _, _ => Some 0
  | n :: size, o :: o_r, s :: s_r, o' :: o_f, s' :: s_f, i :: index =>
      let j := Qfloor ((o + s * Z2Q i - o') / s' + (1 # 2))%Q in
      if (0 <=? j) && (j <? n) then
        rest ← nearest_offset size o_r s_r o_f s_f index;
        Some (j + n * rest)
      else None
  | _, _, _, _, _, _ => None
  end.

Definition Execute (interpolator : sitk_interpolator)
    (reference floating : sitk_Image) : sitk_Image :=
  let values := match GetBuffer floating with Zeros => [] | Pixels v => v end in
  {| GetSize := GetSize reference;
     GetSpacing := GetSpacing reference;
     GetOrigin := GetOrigin reference;
     GetDirection := GetDirection reference;
     GetPixelID := GetPixelID floating;
     GetNumberOfComponentsPerPixel := GetNumberOfComponentsPerPixel floating;
     GetBuffer := Pixels
       (map (fun index =>
               match nearest_offset (GetSize floating)
                       (GetOrigin reference) (GetSpacing reference)
                       (GetOrigin floating) (GetSpacing floating) index with
               | Some k => nth (Z.to_nat k) values 0%Q
               | None => 0%Q
               end)
            (indices (GetSize reference))) |}.

Definition sitk_to_nib (image : sitk_Image) : ndarray * ndarray :=
  let size := map Z.to_nat (GetSize image) ++ repeat 1%nat (3 - GetDimension image) in
  let s := GetSpacing image ++ repeat 1%Q (3 - GetDimension image) in
  let o := GetOrigin image ++ repeat 0%Q (3 - GetDimension image) in
  ({| shape := Z.to_nat (GetNumberOfComponentsPerPixel image) :: size;
      elems := match GetBuffer image with
               | Zeros => repeat 0%Q (foldr Nat.mul 1%nat size)
               | Pixels v => v
               end |},
   {| shape := [4; 4]%nat;
      elems := [nth 0 s 0; 0; 0; nth 0 o 0;
                0; nth 1 s 0; 0; nth 1 o 0;
                0; 0; nth 2 s 0; nth 2 o 0;
                0; 0; 0; 1]%Q |}).

Definition Image_spacing (image : Image) : list Q :=
  match items image !! AFFINE with
  | Some (VArray affine) => [at_index affine 0; at_index affine 5; at_index affine 10]
  | _ => []
  end.

(** No file exists. *)
#[local] Instance backend : Backend :=
  Build_Backend (fun _ => false) (fun _ => inhabitant)
    Image_spacing as_sitk Execute sitk_to_nib.

End AxisAligned.

(** ** Concrete subjects *)
Module Examples.
Import AxisAligned.

Definition diagonal (a b c : Q) : ndarray :=
  {| shape := [4; 4]%nat;
     elems := [a; 0; 0; 0;  0; b; 0; 0;  0; 0; c; 0;  0; 0; 0; 1]%Q |}.

(** Two by two by two voxels, one channel. *)
Definition voxels : ndarray :=
  {| shape := [1; 2; 2; 2]%nat; elems := [1; 2; 3; 4; 5; 6; 7; 8]%Q |}.

(** An image of 1 mm voxels, with further keys [extra]. *)
Definition image_with (scalar : bool) (extra : list (pykey * pyval)) : Image :=
  {| is_ScalarImage := scalar;
     items := list_to_map
       ((DATA, VTensor voxels) :: (AFFINE, VArray (diagonal 1 1 1)) :: extra) |}.

Definition to_mni : pykey := KStr "to_mni".

(** A scalar image carrying a matrix that doubles the voxel size. *)
Definition mri : Image := image_with true [(to_mni, VArray (diagonal 2 2 2))].
Definition plain_mri : Image := image_with true [].
Definition label_map : Image := image_with false [].

Definition transform (reference : pyobj) (spacing : option (list Q))
    (name : option pykey) (only : bool) : Resample :=
  {| reference_image := reference;
     target_spacing := spacing;
     image_interpolation := linear;
     pre_affine_name := name;
     scalars_only := only |}.

Definition world_of (images : list (loc * Image)) : world :=
  {| heap := list_to_map images; executed := [] |}.

(** The subjects of the examples: [t1] at location 1 and [t2] at location 2,
    and an entry that is not an image. *)
Definition t1 : loc := 1%positive.
Definition t2 : loc := 2%positive.

Definition siblings : Subject :=
  [("t1", EImage t1); ("t2", EImage t2); ("age", EOther (VNumber 30))].

(** [t1] carries a matrix under [to_mni], [t2] does not. *)
Definition siblings_world : world := world_of [(t1, mri); (t2, plain_mri)].

(** A subject with no image named [t1]. *)
Definition only_t2 : Subject := [("t2", EImage t2)].
Definition only_t2_world : world := world_of [(t2, mri)].

(** The affine stored for an image. *)
Definition affine_of (w : world) (image : loc) : option pyval :=
  items (heap w !!! image) !! AFFINE.

(** The voxel data stored for an image. *)
Definition data_of (w : world) (image : loc) : option pyval :=
  items (heap w !!! image) !! DATA.

(** A scalar image and its segmentation. *)
Definition seg : loc := 3%positive.
Definition with_labels : Subject := [("t1", EImage t1); ("seg", EImage seg)].
Definition with_labels_world : world := world_of [(t1, plain_mri); (seg, label_map)].

(** The reference given by the name [t1], the matrix configured. *)
Definition named_t1 : Resample := transform (PyStr "t1") None (Some to_mni) false.

(** The world in which [named_t1] leaves [only_t2]. *)
Definition after_failure : world :=
  (apply_transform (B := backend) named_t1 only_t2 only_t2_world).1.

(** The reference given as the image [t1] itself. *)
Definition given_t1 (only : bool) : Resample :=
  transform (PyImage t1) (Some [1; 1; 1]%Q) None only.

End Examples.

(** ** Further notions used in the statements *)


Section Summaries.
Context `{B : Backend}.

(** The pre-affine correction of [apply_transform], as a function of the
    state of the image: the image with its affine replaced by
    [matrix @ affine] when it has the configured key, the image itself
    otherwise. *)
Definition pre_affine_image (self : Resample) (img : Image) : result Image :=
  match pre_affine_name self with
  | Some name =>
      if contains name img then
        result_bind (check_affine name img) (fun _ =>
        result_bind (getitem img name) (fun matrix =>
        result_bind (as_numpy matrix) (fun matrix =>
        result_bind (getitem img AFFINE) (fun affine =>
        result_bind (py_matmul matrix affine) (fun new_affine =>
        Ok (set_item img AFFINE new_affine))))))
      else Ok img
  | None => Ok img
  end.

(** The image after it was resampled onto [reference]: its data and affine
    are what [sitk_to_nib] makes of the output of the filter. *)
Definition resampled_image (interpolator : sitk_interpolator)
    (reference : sitk_Image) (img : Image) : Image :=
  let out := sitk_to_nib (Execute interpolator reference (as_sitk (Some true) img)) in
  set_item (set_item img DATA (VTensor out.1)) AFFINE (VArray out.2).

(** The call of the filter that the loop makes for an image: none when the
    image is skipped. *)
Definition planned (self : Resample) (w : world) (image : loc)
  : list (loc * sitk_interpolator) :=
  if is_reference self image then []
  else match choose_interpolation self (heap w !!! image) with
       | Some i => [(image, get_sitk_interpolator i)]
       | None => []
       end.

(** What [check_affine] raises for a value that is not a 4x4 array or
    tensor. *)
Definition matrix_error (matrix : pyval) : option exn :=
  match matrix with
  | VArray a | VTensor a =>
      if bool_decide (shape a = [4; 4]%nat) then None
      else Some (ValueError (msg_affine_matrix_shape (shape a)))
  | _ => Some (TypeError (msg_affine_matrix_type (val_type matrix)))
  end.

(** What an exception of [apply_transform] tells about the transform and
    the subject. *)
Definition provenance (self : Resample) (subject : Subject) (w w' : world)
    (e : exn) : Prop :=
  match e with
  | ValueError (msg_affine_name_not_found k) =>
      pre_affine_name self = Some k /\ w' = w /\
      forall l, l ∈ get_images subject -> contains k (heap w !!! l) = false
  | ValueError (msg_reference_not_found name) =>
      reference_image self = PyStr name /\ subject_getitem subject name = None
  | AttributeError _ =>
      exists name v, reference_image self = PyStr name /\
                     subject_getitem subject name = Some (EOther v)
  | UnboundLocalError _ =>
      match reference_image self with
      | PyNone | PyStr _ | PyImage _ => False
      | _ => True
      end
  | TypeError (msg_affine_name_type t) =>
      exists z, pre_affine_name self = Some (KInt z) /\ t = ty_int
  | TypeError (msg_affine_matrix_type _)
  | ValueError (msg_affine_matrix_shape _) =>
      exists s, pre_affine_name self = Some (KStr s)
  | ValueError (msg_target_type _) | ValueError (msg_spacing_positive _) => False
  | _ => True
  end.

End Summaries.

(** ** Further concrete subjects *)
Module MoreExamples.
Import AxisAligned Examples.



(** Resampling to 2 mm voxels. *)
Definition to_2mm : Resample := transform PyNone (Some [2; 2; 2]%Q) None false.

(** The reference given by a name that is not in [siblings]. *)
Definition named_t3 : Resample := transform (PyStr "t3") None None false.

(** The outcomes of three runs on [siblings]. *)
Definition run_named_t1 : world * result unit :=
  apply_transform (B := backend) named_t1 siblings siblings_world.
Definition run_given_t1 : world * result unit :=
  apply_transform (B := backend) (given_t1 false) siblings siblings_world.
Definition run_to_2mm : world * result unit :=
  apply_transform (B := backend) to_2mm siblings siblings_world.

(** An image whose matrix is 3x3. *)
Definition bad_matrix : pyval :=
  VArray {| shape := [3; 3]%nat; elems := [1; 0; 0; 0; 1; 0; 0; 0; 1]%Q |}.
Definition bad_mri : Image := image_with true [(to_mni, bad_matrix)].
Definition bad_world : world := world_of [(t1, bad_mri)].

End MoreExamples.

(** * Properties *)

(** ** [parse_spacing] *)

Lemma Qle0_true q : Qle0 q = true <-> (q <= 0)%Q.
Proof. apply Qle_bool_iff. Qed.

Lemma Qle0_false q : Qle0 q = false <-> (0 < q)%Q.
Proof.
  unfold Qle0. split; intros H.
  - apply Qnot_le_lt. intros Hle. apply Qle_bool_iff in Hle. congruence.
  - destruct (Qle_bool q 0) eqn:E; [|done].
    apply Qle_bool_iff in E. exfalso. eapply Qlt_not_le; eauto.
Qed.

Lemma existsb_Qle0_true items :
  existsb Qle0 items = true <-> Exists (fun q => (q <= 0)%Q) items.
Proof.
  rewrite existsb_exists, Exists_exists. split.
  - intros (q & Hin & Hq). exists q. split; [by apply list_elem_of_In|by apply Qle0_true].
  - intros (q & Hin & Hq). exists q. split; [by apply list_elem_of_In|by apply Qle0_true].
Qed.


(** C6. [parse_spacing] maps a positive scalar [n] to [(n, n, n)] and
    returns a 3-tuple of positive numbers unchanged; any value that is
    neither a number nor a 3-tuple fails with the [ValueError] that names
    its type; a scalar or a 3-tuple with a component [<= 0] fails with the
    [ValueError] "Spacing must be positive", checked on the value as it was
    given; and every value with a non-positive component fails with a
    [ValueError]. *)
Theorem parse_spacing_spec :
  (forall n, (0 < n)%Q -> parse_spacing (PyNumber n) = Ok [n; n; n]) /\
  (forall a b c, (0 < a)%Q -> (0 < b)%Q -> (0 < c)%Q ->
     parse_spacing (PyTuple [a; b; c]) = Ok [a; b; c]) /\
  (forall o, (forall n, o <> PyNumber n) ->
     (forall a b c, o <> PyTuple [a; b; c]) ->
     parse_spacing o = Raise (ValueError (msg_target_type (type_of o)))) /\
  (forall n, (n <= 0)%Q ->
     parse_spacing (PyNumber n)
     = Raise (ValueError (msg_spacing_positive (PyNumber n)))) /\
  (forall a b c, Exists (fun q => (q <= 0)%Q) [a; b; c] ->
     parse_spacing (PyTuple [a; b; c])
     = Raise (ValueError (msg_spacing_positive (PyTuple [a; b; c])))) /\
  (forall o, has_non_positive o -> exists m, parse_spacing o = Raise (ValueError m)).
Proof.
  repeat split.
  - intros n Hn. unfold parse_spacing; simpl.
    apply Qle0_false in Hn. by rewrite Hn.
  - intros a b c Ha Hb Hc. unfold parse_spacing; simpl.
    apply Qle0_false in Ha, Hb, Hc. by rewrite Ha, Hb, Hc.
  - intros o Hnum Htup. unfold parse_spacing.
    destruct o as [|n|s|s|items|items|l]; simpl; try done.
    + by destruct (Hnum n).
    + destruct items as [|a [|b [|c [|? ?]]]]; simpl; try done.
      by destruct (Htup a b c).
  - intros n Hn. unfold parse_spacing; simpl.
    apply Qle0_true in Hn. by rewrite Hn.
  - intros a b c Hex. unfold parse_spacing.
    apply existsb_Qle0_true in Hex. simpl in *. by rewrite Hex.
  - intros o Ho. unfold parse_spacing.
    destruct o as [|n|s|s|items|items|l]; simpl in *; try done; eauto.
    + apply Qle0_true in Ho. rewrite Ho. eauto.
    + destruct (length items =? 3)%nat; simpl; eauto.
      apply existsb_Qle0_true in Ho. rewrite Ho. eauto.
Qed.

Lemma parse_spacing_spec_witness :
  parse_spacing (PyNumber 5) = Ok [5; 5; 5]%Q /\
  parse_spacing (PyTuple [1; 2; 3]%Q) = Ok [1; 2; 3]%Q /\
  parse_spacing (PyList [1; 2; 3]%Q) = Raise (ValueError (msg_target_type ty_list)) /\
  parse_spacing (PyNumber (-1))
  = Raise (ValueError (msg_spacing_positive (PyNumber (-1)))) /\
  parse_spacing (PyTuple [1; 0; 1]%Q)
  = Raise (ValueError (msg_spacing_positive (PyTuple [1; 0; 1]%Q))) /\
  exists m, parse_spacing (PyTuple [-1; 2]%Q) = Raise (ValueError m).
Proof.
  destruct parse_spacing_spec as (H1 & H2 & H3 & H4 & H5 & H6).
  split; [apply H1; reflexivity|].
  split; [apply H2; reflexivity|].
  split; [apply (H3 (PyList [1; 2; 3]%Q)); discriminate|].
  split; [apply H4; discriminate|].
  split; [apply H5; right; left; discriminate|].
  apply H6. left. discriminate.
Defined.

(** ** [get_reference_image] *)

(** The grid is built whenever the spacings have the image's dimension. *)
Lemma get_reference_image_ok image spacing :
  length (GetSpacing image) = GetDimension image ->
  length spacing = GetDimension image ->
  get_reference_image image spacing = Ok
    {| GetSize :=
         keep_singleton
           (map (fun q => astype_uint16 (Qceiling q))
              (zip_with Qdiv
                 (zip_with (fun n s => (Z2Q n * s)%Q) (GetSize image) (GetSpacing image))
                 spacing))
           (GetSize image);
       GetSpacing := spacing;
       GetOrigin :=
         TransformContinuousIndexToPhysicalPoint image
           (map (fun r => ((1 # 2) * (r - 1))%Q)
              (zip_with Qdiv spacing (GetSpacing image)));
       GetDirection := GetDirection image;
       GetPixelID := GetPixelID image;
       GetNumberOfComponentsPerPixel := GetNumberOfComponentsPerPixel image;
       GetBuffer := Zeros |}.
Proof.
  unfold GetDimension. intros Hs Ht.
  unfold get_reference_image, np_zip.
  rewrite Hs, Nat.eqb_refl. simpl.
  rewrite length_zip_with, Hs, Ht, Nat.min_id, !Nat.eqb_refl. reflexivity.
Qed.

(** The size of the grid on one axis. *)
Lemma get_reference_image_size image spacing ref i n s s' :
  get_reference_image image spacing = Ok ref ->
  GetSize image !! i = Some n ->
  GetSpacing image !! i = Some s ->
  spacing !! i = Some s' ->
  GetSize ref !! i
  = Some (if n =? 1 then 1 else astype_uint16 (true_ceiling n s s')).
Proof.
  unfold get_reference_image, np_zip. intros Hok Hn Hs Hs'.
  destruct (_ =? _)%nat; [|done]. simpl in Hok.
  destruct (_ =? _)%nat; [|done]. simpl in Hok.
  destruct (_ =? _)%nat; [|done]. simpl in Hok.
  injection Hok as <-. simpl. unfold keep_singleton.
  rewrite lookup_zip_with, list_lookup_fmap, !lookup_zip_with.
  rewrite Hn, Hs, Hs'. reflexivity.
Qed.



(** C5. Singleton-axis rule: whenever the old size on axis [i] is 1, the
    grid built by [get_reference_image] has size 1 on axis [i], whatever
    the spacings; and sizes (10,10,1) at spacing (1,1,1) resampled to
    spacing (2,2,2) give sizes (5,5,1). *)
Theorem singleton_axis_rule :
  (forall image spacing i,
     sitk_wf image ->
     length spacing = GetDimension image ->
     Forall (fun s => (0 < s)%Q) spacing ->
     GetSize image !! i = Some 1 ->
     exists ref, get_reference_image image spacing = Ok ref /\
                 GetSize ref !! i = Some 1) /\
  (forall origin direction pixel_id components pixels,
     exists ref,
       get_reference_image
         {| GetSize := [10; 10; 1]; GetSpacing := [1; 1; 1]%Q;
            GetOrigin := origin; GetDirection := direction;
            GetPixelID := pixel_id;
            GetNumberOfComponentsPerPixel := components;
            GetBuffer := pixels |} [2; 2; 2]%Q = Ok ref /\
       GetSize ref = [5; 5; 1]).
Proof.
  split.
  - intros image spacing i (Hs & _ & _) Hlen _ Hi.
    assert (Hlt : (i < GetDimension image)%nat)
      by (apply lookup_lt_Some in Hi; done).
    destruct (lookup_lt_is_Some_2 (GetSpacing image) i) as [s Hsi]; [lia|].
    destruct (lookup_lt_is_Some_2 spacing i) as [s' Hs'i]; [lia|].
    eexists. split; [by apply get_reference_image_ok|].
    erewrite get_reference_image_size;
      [|by apply get_reference_image_ok|exact Hi|exact Hsi|exact Hs'i].
    reflexivity.
  - intros. eexists. split; [by apply get_reference_image_ok|]. reflexivity.
Qed.

Lemma singleton_axis_rule_witness :
  exists ref, get_reference_image (grid [10; 10; 1] [1; 1; 1]%Q) [3; 3; 3]%Q = Ok ref /\
              GetSize ref !! 2%nat = Some 1.
Proof.
  apply (proj1 singleton_axis_rule (grid [10; 10; 1] [1; 1; 1]%Q) [3; 3; 3]%Q 2%nat).
  - repeat split.
  - reflexivity.
  - repeat constructor.
  - reflexivity.
Defined.



(** *** Resampling to the image's own spacing *)

(** In binary64 the quotients of the concrete grids used in this file are
    the exact ones, but rounding can lift the quotient at identity spacing
    above the old size: [3 * 0.1 / 0.1] is greater than 3, and its ceiling
    is 4. *)
Lemma binary64_quotients :
  Binary64.size_quotient 10 1 2 = 5%float /\
  Binary64.size_quotient 1025 1 0.015625 = 65600%float /\
  Binary64.size_quotient 70000 1 1 = 70000%float /\
  PrimFloat.ltb 3 (Binary64.size_quotient 3 Binary64.tenth Binary64.tenth) = true /\
  PrimFloat.leb (Binary64.size_quotient 3 Binary64.tenth Binary64.tenth) 4 = true.
Proof. repeat split; vm_compute; reflexivity. Qed.











(** ** [apply_transform] *)

Section TransformFacts.
Context `{B : Backend}.

Ltac unfold_M :=
  unfold mbind, M_bind, mret, M_ret, raise, lift, deref, setitem, execute in *.

Lemma world_eta (w : world) : {| heap := heap w; executed := executed w |} = w.
Proof. by destruct w. Qed.

Lemma check_affine_Ok name img :
  check_affine name img = Ok tt ->
  forall matrix, items img !! name = Some matrix ->
  exists a, as_numpy matrix = Ok a /\ shape a = [4; 4]%nat.
Proof.
  unfold check_affine. destruct name as [s|z]; [|done].
  intros Hc matrix Hm. rewrite Hm in Hc.
  destruct matrix as [| | |a|a]; try done;
    (case_bool_decide; [|done]); by exists a.
Qed.

(** The correction either leaves the world as it is, or succeeds and
    replaces the affine. *)
Lemma apply_pre_affine_cases self image w w' r :
  apply_pre_affine self image w = (w', r) ->
  w' = w \/ (r = Ok tt /\ affine_corrected self image w w').
Proof.
  unfold apply_pre_affine, affine_corrected.
  destruct (pre_affine_name self) as [name|] eqn:Hname; unfold_M; simpl;
    [|intros [= <- <-]; by left].
  unfold contains. case_bool_decide as Hin; [|intros [= <- <-]; by left].
  destruct Hin as [matrix Hm].
  destruct (check_affine name (heap w !!! image)) as [[]|e] eqn:Hc;
    [|intros [= <- <-]; by left].
  destruct (check_affine_Ok _ _ Hc _ Hm) as (a & Ha & Hshape).
  unfold getitem. rewrite Hm, Ha.
  destruct (items (heap w !!! image) !! AFFINE) as [affine|] eqn:Haff;
    [|intros [= <- <-]; by left].
  destruct (py_matmul a affine) as [new_affine|e] eqn:Hmul;
    [|intros [= <- <-]; by left].
  intros [= <- <-]. right. split; [done|].
  exists name, matrix, a, affine, new_affine. done.
Qed.

(** The same, told by the result: a correction that raises has changed
    nothing and raises none of the exceptions of the reference lookup; one
    that returns has replaced the affine exactly when the image has the
    key. *)
Lemma apply_pre_affine_result self image w w' r :
  apply_pre_affine self image w = (w', r) ->
  match r with
  | Raise e => w' = w /\ ~ raised_by_reference e
  | Ok _ =>
      match pre_affine_name self with
      | Some name =>
          if contains name (heap w !!! image)
          then affine_corrected self image w w' else w' = w
      | None => w' = w
      end
  end.
Proof.
  unfold apply_pre_affine, affine_corrected.
  destruct (pre_affine_name self) as [name|] eqn:Hname; unfold_M; simpl;
    [|by intros [= <- <-]].
  destruct (contains name (heap w !!! image)) eqn:Hin; [|by intros [= <- <-]].
  unfold contains in Hin. apply bool_decide_eq_true in Hin as [matrix Hm].
  destruct (check_affine name (heap w !!! image)) as [[]|e] eqn:Hc.
  2:{ intros [= <- <-]. split; [done|].
      unfold check_affine in Hc. rewrite Hm in Hc.
      destruct name; [|injection Hc as <-; by intros []].
      destruct matrix; try (injection Hc as <-; by intros []);
        (case_bool_decide; [done|injection Hc as <-; by intros []]). }
  destruct (check_affine_Ok _ _ Hc _ Hm) as (a & Ha & Hshape).
  unfold getitem. rewrite Hm, Ha.
  destruct (items (heap w !!! image) !! AFFINE) as [affine|] eqn:Haff;
    [|intros [= <- <-]; split; [done|by intros []]].
  destruct (py_matmul a affine) as [new_affine|e] eqn:Hmul.
  - intros [= <- <-]. exists name, matrix, a, affine, new_affine. done.
  - intros [= <- <-]. split; [done|].
    unfold py_matmul in Hmul.
    destruct affine as [| | |b|b]; try (injection Hmul as <-; by intros []).
    unfold matmul in Hmul.
    repeat (match type of Hmul with
            | context [match ?x with _ => _ end] => destruct x
            end; simpl in Hmul; try done;
            try (injection Hmul as <-; by intros [])).
Qed.

(** Looking up the reference changes nothing. *)
Lemma resolve_reference_pure self subject floating w w' r :
  resolve_reference self subject floating w = (w', r) -> w' = w.
Proof.
  unfold resolve_reference. unfold_M.
  destruct (reference_image self) as [| |name| | | |l]; try (by intros [= <- <-]).
  - destruct (target_spacing self); by intros [= <- <-].
  - destruct (subject_getitem subject name) as [[]|]; by intros [= <- <-].
Qed.

(** The three ways an iteration that resamples can end. *)
Lemma resample_image_cases self subject image interpolator w w' r :
  resample_image self subject image interpolator w = (w', r) ->
  exists w1, (w1 = w \/ affine_corrected self image w w1) /\
    ((exists e, r = Raise e /\ w' = w1) \/
     (r = Ok tt /\ resampled_with interpolator image w1 w')).
Proof.
  unfold resample_image. unfold mbind at 1. unfold M_bind at 1.
  destruct (apply_pre_affine self image w) as [w1 r1] eqn:Hpre.
  apply apply_pre_affine_cases in Hpre.
  destruct r1 as [[]|e].
  2:{ intros [= <- <-]. exists w1. split; [|left; eauto].
      destruct Hpre as [->|[? _]]; [by left|done]. }
  assert (Hw1 : w1 = w \/ affine_corrected self image w w1)
    by (destruct Hpre as [|[_ ?]]; auto).
  unfold_M.
  destruct (resolve_reference _ _ _ w1) as [w2 [ref|e]] eqn:Href;
    pose proof (resolve_reference_pure _ _ _ _ _ _ Href) as ->.
  2:{ intros [= <- <-]. exists w1. split; [done|]. left; eauto. }
  destruct (_ =? _)%nat.
  2:{ intros [= <- <-]. exists w1. split; [done|]. left; eauto. }
  destruct (sitk_to_nib _) as [array affine] eqn:Hout.
  intros [= <- <-]. exists w1. split; [done|]. right. split; [done|].
  exists ref, (as_sitk (Some true) (heap w1 !!! image)).
  simpl. rewrite Hout. reflexivity.
Qed.

(** An iteration that raises stops where the correction left the world. *)
Lemma resample_image_raise self subject image interpolator w w' e :
  resample_image self subject image interpolator w = (w', Raise e) ->
  exists r1, apply_pre_affine self image w = (w', r1) /\
             (r1 = Raise e \/ r1 = Ok tt).
Proof.
  unfold resample_image. unfold mbind at 1. unfold M_bind at 1.
  destruct (apply_pre_affine self image w) as [w1 [[]|e1]] eqn:Hpre.
  2:{ intros [= <- <-]. eauto. }
  unfold_M.
  destruct (resolve_reference _ _ _ w1) as [w2 [ref|e2]] eqn:Href;
    pose proof (resolve_reference_pure _ _ _ _ _ _ Href) as ->.
  2:{ intros [= <- <-]. eauto. }
  destruct (_ =? _)%nat.
  2:{ intros [= <- <-]. eauto. }
  destruct (sitk_to_nib _). done.
Qed.

(** *** What [stored] changes *)

Lemma heap_stored_ne image key value w l :
  l <> image -> heap (stored image key value w) !! l = heap w !! l.
Proof. intros Hne. unfold stored; simpl. by rewrite lookup_insert_ne. Qed.

Lemma heap_stored_eq image key value w :
  heap (stored image key value w) !!! image
  = set_item (heap w !!! image) key value.
Proof. unfold stored; simpl. by rewrite lookup_total_insert_eq. Qed.

Lemma class_stored image key value w l :
  is_ScalarImage (heap (stored image key value w) !!! l)
  = is_ScalarImage (heap w !!! l).
Proof.
  destruct (decide (l = image)) as [->|Hne].
  - by rewrite heap_stored_eq.
  - unfold stored; simpl. by rewrite lookup_total_insert_ne.
Qed.

Lemma items_stored_ne image key value w k :
  k <> key ->
  items (heap (stored image key value w) !!! image) !! k
  = items (heap w !!! image) !! k.
Proof. intros Hne. rewrite heap_stored_eq. simpl. by rewrite lookup_insert_ne. Qed.

Lemma items_stored_eq image key value w :
  items (heap (stored image key value w) !!! image) !! key = Some value.
Proof. rewrite heap_stored_eq. simpl. by rewrite lookup_insert_eq. Qed.

(** *** One iteration *)

(** An iteration either skips the image or resamples it with the chosen
    interpolator. *)
Lemma process_image_cases self subject image w w' r :
  process_image self subject image w = (w', r) ->
  (r = Ok tt /\ w' = w /\
   (is_reference self image = true \/
    choose_interpolation self (heap w !!! image) = None)) \/
  (is_reference self image = false /\
   exists i, choose_interpolation self (heap w !!! image) = Some i /\
     resample_image self subject image (get_sitk_interpolator i) w = (w', r)).
Proof.
  unfold process_image.
  destruct (is_reference self image) eqn:Href.
  { unfold_M. intros [= <- <-]. left. auto. }
  unfold mbind, M_bind, deref. simpl.
  destruct (choose_interpolation self (heap w !!! image)) as [i|] eqn:Hi.
  - intros Hr. right. split; [done|]. by exists i.
  - unfold_M. intros [= <- <-]. left. auto.
Qed.

(** An iteration touches no other image, changes the class of no image,
    and calls the filter at most once, for its own image. *)
Lemma process_image_effect self subject image w w' r :
  process_image self subject image w = (w', r) ->
  (forall l, l <> image -> heap w' !! l = heap w !! l) /\
  (forall l, is_ScalarImage (heap w' !!! l) = is_ScalarImage (heap w !!! l)) /\
  (executed w' = executed w \/
   is_reference self image = false /\
   exists i, choose_interpolation self (heap w !!! image) = Some i /\
     executed w' = executed w ++ [(image, get_sitk_interpolator i)]).
Proof.
  intros Hp. apply process_image_cases in Hp
    as [(_ & -> & _)|(Href & i & Hi & Hr)]; [by auto|].
  apply resample_image_cases in Hr as (w1 & Hw1 & Hw').
  assert (H1 : (forall l, l <> image -> heap w1 !! l = heap w !! l) /\
               (forall l, is_ScalarImage (heap w1 !!! l)
                          = is_ScalarImage (heap w !!! l)) /\
               executed w1 = executed w).
  { destruct Hw1 as [->|(? & ? & ? & ? & ? & _ & _ & _ & _ & _ & _ & ->)];
      [done|].
    split; [intros; by apply heap_stored_ne|].
    split; [intros; by apply class_stored|done]. }
  destruct H1 as (Hh1 & Hc1 & He1).
  destruct Hw' as [(e & _ & ->)|(_ & ref & flo & ->)]; [by auto|].
  split; [|split].
  - intros l Hne. rewrite !heap_stored_ne by done. simpl. by apply Hh1.
  - intros l. rewrite !class_stored. simpl. apply Hc1.
  - right. split; [done|]. exists i. split; [done|]. simpl. by rewrite He1.
Qed.

(** *** The loop *)

Lemma for_each_cons body image rest w :
  for_each body (image :: rest) w
  = match body image w with
    | (w1, Ok _) => for_each body rest w1
    | (w1, Raise e) => (w1, Raise e)
    end.
Proof. reflexivity. Qed.

(** An invariant of every iteration is an invariant of the loop. *)
Lemma for_each_invariant (P : world -> Prop) body images w w' r :
  P w ->
  (forall image w1 w2 r1, image ∈ images -> P w1 ->
     body image w1 = (w2, r1) -> P w2) ->
  for_each body images w = (w', r) -> P w'.
Proof.
  revert w. induction images as [|image rest IH]; intros w Hw Hstep.
  - unfold_M. simpl. by intros [= <- <-].
  - rewrite for_each_cons.
    destruct (body image w) as [w1 [[]|e]] eqn:Hb.
    + apply IH.
      * eapply Hstep; [apply list_elem_of_here|exact Hw|exact Hb].
      * intros image' w2 w3 r1 Hin. apply Hstep. by apply list_elem_of_further.
    + intros [= <- <-]. eapply Hstep; [apply list_elem_of_here|exact Hw|exact Hb].
Qed.

(** A loop that raises does so in the iteration of one image, after the
    iterations of the images before it have returned. *)
Lemma for_each_raise body images w w' e :
  for_each body images w = (w', Raise e) ->
  exists before image after w1,
    images = before ++ image :: after /\
    for_each body before w = (w1, Ok tt) /\
    body image w1 = (w', Raise e).
Proof.
  revert w. induction images as [|image rest IH]; intros w.
  - unfold_M. simpl. done.
  - rewrite for_each_cons.
    destruct (body image w) as [w1 [[]|e1]] eqn:Hb.
    + intros Hrest. apply IH in Hrest as (before & x & after & w2 & -> & Hbefore & Hx).
      exists (image :: before), x, after, w2. split; [done|].
      split; [|done]. rewrite for_each_cons, Hb. done.
    + intros [= <- <-]. exists [], image, rest, w. done.
Qed.

(** *** The check of the affine key *)

Lemma check_affine_key_presence_absent name subject w :
  (forall image, image ∈ get_images subject ->
     contains name (heap w !!! image) = false) ->
  check_affine_key_presence name subject w
  = (w, Raise (ValueError (msg_affine_name_not_found name))).
Proof.
  intros Habsent. unfold check_affine_key_presence.
  destruct (existsb _ _) eqn:Hex; [|done].
  apply existsb_exists in Hex as (image & Hin & Hc).
  apply list_elem_of_In, Habsent in Hin. congruence.
Qed.

Lemma apply_transform_key_absent self subject name w :
  pre_affine_name self = Some name ->
  (forall image, image ∈ get_images subject ->
     contains name (heap w !!! image) = false) ->
  apply_transform self subject w
  = (w, Raise (ValueError (msg_affine_name_not_found name))).
Proof.
  intros Hname Habsent. unfold apply_transform. rewrite Hname.
  unfold mbind, M_bind. by rewrite check_affine_key_presence_absent.
Qed.

(** A key that is not a string is reported missing like any other key no
    image has; the type check of [check_affine] is not reached. *)
Lemma non_string_key_absent self subject z w :
  pre_affine_name self = Some (KInt z) ->
  (forall image, image ∈ get_images subject ->
     contains (KInt z) (heap w !!! image) = false) ->
  apply_transform self subject w
  = (w, Raise (ValueError (msg_affine_name_not_found (KInt z)))) /\
  forall image_dict,
    check_affine (KInt z) image_dict
    = Raise (TypeError (msg_affine_name_type ty_int)).
Proof.
  intros Hname Habsent. split; [by apply apply_transform_key_absent|done].
Qed.

(** C8. Affine-key fail-fast: when a pre-affine key is configured and no
    image of the subject has it, [apply_transform] raises the [ValueError]
    "An affine name was given ..., but it was not found in any image in the
    subject" and leaves the world as it was: no image was mutated and the
    filter was not called. *)
Theorem affine_key_fail_fast self subject name w :
  pre_affine_name self = Some name ->
  (forall image, image ∈ get_images subject ->
     contains name (heap w !!! image) = false) ->
  exists w' e,
    apply_transform self subject w = (w', Raise e) /\
    e = ValueError (msg_affine_name_not_found name) /\
    heap w' = heap w /\ executed w' = executed w.
Proof.
  intros Hname Habsent. exists w, (ValueError (msg_affine_name_not_found name)).
  split; [by apply apply_transform_key_absent|done].
Qed.

(** *** The choice of the interpolator *)

Lemma choose_interpolation_Some self img i :
  choose_interpolation self img = Some i ->
  if is_ScalarImage img then i = image_interpolation self
  else scalars_only self = false /\ i = nearest.
Proof.
  unfold choose_interpolation.
  destruct (is_ScalarImage img); simpl; [by intros [= <-]|].
  destruct (scalars_only self); [done|by intros [= <-]].
Qed.

(** What the loop keeps true of the calls it makes and of the images it
    leaves alone. *)
Lemma for_each_dispatch self subject images w w' r :
  for_each (process_image self subject) images w = (w', r) ->
  (forall l, is_ScalarImage (heap w' !!! l) = is_ScalarImage (heap w !!! l)) /\
  (exists calls, executed w' = executed w ++ calls /\
     forall image k, (image, k) ∈ calls ->
       image ∈ images /\ is_reference self image = false /\
       if is_ScalarImage (heap w !!! image)
       then k = get_sitk_interpolator (image_interpolation self)
       else scalars_only self = false /\ k = sitkNearestNeighbor) /\
  (scalars_only self = true ->
   forall l, is_ScalarImage (heap w !!! l) = false -> heap w' !! l = heap w !! l).
Proof.
  intros Hloop. pattern w'.
  eapply for_each_invariant; [| |exact Hloop]; cbv beta.
  - split; [done|]. split; [|done].
    exists []. split; [by rewrite app_nil_r|]. intros ? ? Hin. by apply elem_of_nil in Hin.
  - intros image w1 w2 r1 Hin (Hclass & (calls & Hcalls & Hgood) & Hkeep) Hstep.
    pose proof (process_image_effect _ _ _ _ _ _ Hstep) as (Hframe & Hclass' & Hlog).
    split; [intros l; by rewrite Hclass'|]. split.
    + destruct Hlog as [Hsame|(Href & i & Hi & Happ)].
      * exists calls. by rewrite Hsame.
      * exists (calls ++ [(image, get_sitk_interpolator i)]).
        rewrite Happ, Hcalls, app_assoc. split; [done|].
        intros image' k [Hold|Hnew%list_elem_of_singleton]%elem_of_app; [by apply Hgood|].
        injection Hnew as -> ->. split; [done|]. split; [done|].
        apply choose_interpolation_Some in Hi. rewrite Hclass in Hi.
        destruct (is_ScalarImage (heap w !!! image)); [by subst|].
        destruct Hi as [? ->]. done.
    + intros Hso l Hl. rewrite <- (Hkeep Hso l Hl).
      destruct (decide (l = image)) as [->|Hne]; [|by apply Hframe].
      apply process_image_cases in Hstep
        as [(_ & -> & _)|(_ & i & Hi & _)]; [done|].
      apply choose_interpolation_Some in Hi. rewrite Hclass, Hl in Hi.
      destruct Hi as [Hi _]. congruence.
Qed.


(** *** The whole run *)

Lemma apply_transform_cases self subject w w' r :
  apply_transform self subject w = (w', r) ->
  (w' = w /\ exists name, pre_affine_name self = Some name /\
     r = Raise (ValueError (msg_affine_name_not_found name))) \/
  for_each (process_image self subject) (get_images subject) w = (w', r).
Proof.
  unfold apply_transform. unfold mbind at 1, M_bind at 1.
  destruct (pre_affine_name self) as [name|]; [|by right].
  unfold check_affine_key_presence. destruct (existsb _ _); [by right|].
  intros [= <- <-]. left. split; [done|]. by exists name.
Qed.

(** The loop changes only the images it goes through. *)
Lemma for_each_frame self subject images w w' r l :
  for_each (process_image self subject) images w = (w', r) ->
  l ∉ images -> heap w' !! l = heap w !! l.
Proof.
  intros Hloop Hl. pattern w'.
  eapply for_each_invariant; [| |exact Hloop]; cbv beta; [done|].
  intros image w1 w2 r1 Hin <- Hstep.
  apply process_image_effect in Hstep as (Hframe & _).
  apply Hframe. intros ->. done.
Qed.

(** *** The reference *)

(** X11. An in-memory reference is skipped: it is neither mutated nor handed to
    the filter. *)
Lemma in_memory_reference_skipped self subject r w w' res :
  reference_image self = PyImage r ->
  apply_transform self subject w = (w', res) ->
  heap w' !! r = heap w !! r /\
  exists calls, executed w' = executed w ++ calls /\
                forall k, (r, k) ∉ calls.
Proof.
  intros Href Hrun.
  assert (Hisref : is_reference self r = true).
  { unfold is_reference. rewrite Href. by apply bool_decide_eq_true. }
  apply apply_transform_cases in Hrun as [(-> & _)|Hloop].
  { split; [done|]. exists []. split; [by rewrite app_nil_r|].
    intros k Hin. by apply elem_of_nil in Hin. }
  split.
  - pattern w'. eapply for_each_invariant; [| |exact Hloop]; cbv beta; [done|].
    intros image w1 w2 r1 _ <- Hstep.
    destruct (decide (r = image)) as [<-|Hne].
    + apply process_image_cases in Hstep as [(_ & -> & _)|(Hno & _)]; [done|].
      congruence.
    + apply process_image_effect in Hstep as (Hframe & _). by apply Hframe.
  - apply for_each_dispatch in Hloop as (_ & (calls & Hcalls & Hgood) & _).
    exists calls. split; [done|]. intros k Hin.
    apply Hgood in Hin as (_ & Hno & _). congruence.
Qed.

(** With a [str] reference no image is the reference for the skip test,
    the named image included: it is resampled like its siblings. *)
Lemma named_reference_not_skipped self subject name image i w :
  reference_image self = PyStr name ->
  choose_interpolation self (heap w !!! image) = Some i ->
  is_reference self image = false /\
  process_image self subject image w
  = resample_image self subject image (get_sitk_interpolator i) w.
Proof.
  intros Href Hi.
  assert (Hno : is_reference self image = false)
    by (unfold is_reference; by rewrite Href).
  split; [done|]. unfold process_image. rewrite Hno.
  unfold mbind at 1, M_bind at 1, deref. by rewrite Hi.
Qed.

(** A [str] reference is looked up under its name in the subject. *)
Lemma resolve_reference_str self subject name floating w :
  reference_image self = PyStr name ->
  resolve_reference self subject floating w
  = (w, match subject_getitem subject name with
        | Some (EImage r) => Ok (as_sitk None (heap w !!! r))
        | Some (EOther _) => Raise (AttributeError "as_sitk")
        | None => Raise (ValueError (msg_reference_not_found name))
        end).
Proof.
  intros Href. unfold resolve_reference. rewrite Href.
  by destruct (subject_getitem subject name) as [[]|].
Qed.

(** When the name is not a key of the subject, an iteration that gets
    past the correction raises the [ValueError] that names it. *)
Lemma named_reference_missing self subject name image i w :
  reference_image self = PyStr name ->
  subject_getitem subject name = None ->
  choose_interpolation self (heap w !!! image) = Some i ->
  exists w1 r1,
    apply_pre_affine self image w = (w1, r1) /\
    process_image self subject image w
    = (w1, match r1 with
           | Ok _ => Raise (ValueError (msg_reference_not_found name))
           | Raise e => Raise e
           end).
Proof.
  intros Href Hnone Hi.
  destruct (named_reference_not_skipped self subject name image i w Href Hi)
    as [_ ->].
  destruct (apply_pre_affine self image w) as [w1 r1] eqn:Hpre.
  exists w1, r1. split; [done|].
  unfold resample_image. unfold mbind at 1, M_bind at 1. rewrite Hpre.
  destruct r1 as [[]|e]; [|done].
  unfold mbind at 1, M_bind at 1, deref.
  unfold mbind at 1, M_bind at 1.
  by rewrite (resolve_reference_str _ _ name), Hnone.
Qed.

(** A [Path] reference is not: no branch binds the reference image. *)
Lemma resolve_reference_path self subject path floating w :
  reference_image self = PyPath path ->
  resolve_reference self subject floating w
  = (w, Raise (UnboundLocalError "reference_image_sitk")).
Proof. intros Href. unfold resolve_reference. by rewrite Href. Qed.

(** A [str] and a [Path] that name no file are both kept as they are. *)
Lemma parse_target_no_file target path w :
  target = PyStr path \/ target = PyPath path ->
  is_file path = false ->
  parse_target target w = (w, Ok (target, None)).
Proof. intros [-> | ->] Hfile; unfold parse_target; by rewrite Hfile. Qed.

(** *** Failures *)

(** C1, amended. If [apply_transform] raises, then either the check of the
    affine key failed and the world is as it was, or the iteration of one
    image raised after the iterations before it returned.  That image was
    not resampled: no call of the filter was made for it, and its class and
    every entry other than its affine (its voxel data among them) are as
    they were when its iteration began.  Its affine is as it was when the
    correction itself raised (the checks of the matrix come before the
    mutation) and when the image has no configured key; but when the image
    has the key and the failure comes from the reference lookup or the
    dimension check, the affine is left as [matrix @ affine].  No other
    image is touched by the failing iteration, and when the images of the
    subject are distinct objects, the image was at the beginning of its
    iteration as it was before the invocation and the images after it are
    as they were. *)
Theorem failure_leaves_at_most_the_affine_correction self subject w w' e :
  apply_transform self subject w = (w', Raise e) ->
  w' = w \/
  exists before image after w1,
    get_images subject = before ++ image :: after /\
    for_each (process_image self subject) before w = (w1, Ok tt) /\
    process_image self subject image w1 = (w', Raise e) /\
    (w' = w1 \/ affine_corrected self image w1 w') /\
    (forall w2 e', apply_pre_affine self image w1 = (w2, Raise e') -> w' = w1) /\
    (match pre_affine_name self with
     | Some name => contains name (heap w1 !!! image) = false
     | None => True
     end -> w' = w1) /\
    (forall name, pre_affine_name self = Some name ->
       contains name (heap w1 !!! image) = true ->
       raised_by_reference e -> affine_corrected self image w1 w') /\
    executed w' = executed w1 /\
    is_ScalarImage (heap w' !!! image) = is_ScalarImage (heap w1 !!! image) /\
    (forall k, k <> AFFINE ->
       items (heap w' !!! image) !! k = items (heap w1 !!! image) !! k) /\
    (forall l, l <> image -> heap w' !! l = heap w1 !! l) /\
    (NoDup (get_images subject) ->
       heap w1 !! image = heap w !! image /\
       forall l, l ∈ after -> heap w' !! l = heap w !! l).
Proof.
  intros Hrun. apply apply_transform_cases in Hrun as [(-> & _)|Hloop]; [by left|].
  right. apply for_each_raise in Hloop
    as (before & image & after & w1 & Himages & Hbefore & Hstep).
  exists before, image, after, w1. do 3 (split; [done|]).
  pose proof (process_image_effect _ _ _ _ _ _ Hstep) as (Hframe & _ & _).
  assert (Hpre : exists r1, apply_pre_affine self image w1 = (w', r1) /\
                            (r1 = Raise e \/ r1 = Ok tt)).
  { apply process_image_cases in Hstep as [(? & _)|(_ & i & _ & Hres)]; [done|].
    by apply resample_image_raise in Hres. }
  destruct Hpre as (r1 & Hpre & Hr1).
  pose proof (apply_pre_affine_result _ _ _ _ _ Hpre) as Hres.
  assert (Hcase : w' = w1 \/ affine_corrected self image w1 w').
  { apply apply_pre_affine_cases in Hpre as [|[_ ?]]; auto. }
  split; [done|]. split.
  { intros w2 e' Hraise. rewrite Hpre in Hraise. injection Hraise as <- ->.
    by destruct Hres. }
  split.
  { intros Hno. destruct Hr1 as [-> | ->]; [by destruct Hres|].
    destruct (pre_affine_name self); [|done]. by rewrite Hno in Hres. }
  split.
  { intros name Hname Hin Hlate. destruct Hr1 as [-> | ->].
    - by destruct Hres.
    - by rewrite Hname, Hin in Hres. }
  assert (Hsame : executed w' = executed w1 /\
    is_ScalarImage (heap w' !!! image) = is_ScalarImage (heap w1 !!! image) /\
    forall k, k <> AFFINE ->
      items (heap w' !!! image) !! k = items (heap w1 !!! image) !! k).
  { destruct Hcase as [->|(? & ? & ? & ? & ? & _ & _ & _ & _ & _ & _ & ->)];
      [done|].
    split; [done|]. split; [apply class_stored|].
    intros k Hk. by apply items_stored_ne. }
  destruct Hsame as (He & Hc & Hi). do 4 (split; [done|]).
  intros Hnodup. rewrite Himages in Hnodup.
  apply NoDup_app in Hnodup as (_ & Hdisjoint & Hrest).
  apply NoDup_cons in Hrest as (Hnotin & _).
  assert (Hb : forall l, l ∉ before -> heap w1 !! l = heap w !! l)
    by (intros l; by apply (for_each_frame _ _ _ _ _ _ _ Hbefore)).
  split.
  - apply Hb. intros Hin. apply (Hdisjoint _ Hin), list_elem_of_here.
  - intros l Hl. rewrite Hframe by (intros ->; done).
    apply Hb. intros Hin. by apply (Hdisjoint _ Hin), list_elem_of_further.
Qed.

End TransformFacts.

(** ** [apply_transform] on concrete subjects *)

Section Concrete.
Import Examples.
Local Existing Instance AxisAligned.backend.

Lemma affine_key_fail_fast_witness :
  exists w' e,
    apply_transform (transform PyNone (Some [1; 1; 1]%Q) (Some to_mni) false)
      [("t1", EImage 1%positive); ("seg", EImage 2%positive)]
      (world_of [(1%positive, plain_mri); (2%positive, label_map)])
    = (w', Raise e) /\
    e = ValueError (msg_affine_name_not_found to_mni) /\
    heap w' = heap (world_of [(1%positive, plain_mri); (2%positive, label_map)]) /\
    executed w' = [].
Proof.
  apply (affine_key_fail_fast (transform PyNone (Some [1; 1; 1]%Q) (Some to_mni) false)
           [("t1", EImage 1%positive); ("seg", EImage 2%positive)] to_mni
           (world_of [(1%positive, plain_mri); (2%positive, label_map)])).
  - reflexivity.
  - intros image Hin. simpl in Hin.
    apply elem_of_cons in Hin as [->|Hin]; [by vm_compute|].
    apply elem_of_cons in Hin as [->|Hin]; [by vm_compute|].
    by apply elem_of_nil in Hin.
Defined.

(** C1 fails as stated.  The reference name [t1] is not a key of the
    subject and [t2] carries the matrix: the iteration of [t2] raises at the
    reference lookup, after the correction has doubled the affine of [t2]. *)
Lemma atomicity_counterexample :
  exists w',
    apply_transform named_t1 only_t2 only_t2_world
    = (w', Raise (ValueError (msg_reference_not_found "t1"))) /\
    affine_of only_t2_world t2 = Some (VArray (diagonal 1 1 1)) /\
    affine_of w' t2 = Some (VArray (diagonal 2 2 2)) /\
    affine_of w' t2 <> affine_of only_t2_world t2.
Proof.
  eexists. split; [vm_compute; reflexivity|].
  split; [vm_compute; reflexivity|].
  split; [vm_compute; reflexivity|].
  vm_compute. discriminate.
Qed.

Lemma failure_leaves_at_most_the_affine_correction_witness :
  affine_corrected named_t1 t2 only_t2_world after_failure /\
  data_of after_failure t2 = data_of only_t2_world t2 /\
  executed after_failure = [].
Proof.
  destruct (failure_leaves_at_most_the_affine_correction named_t1 only_t2
              only_t2_world after_failure
              (ValueError (msg_reference_not_found "t1")))
    as [Hsame|(before & image & after & w1 & Himages & Hbefore & _ & _ & _ & _
               & Hlate & Hexec & _ & Hitems & _ & _)].
  - vm_compute. reflexivity.
  - exfalso.
    assert (Hne : affine_of after_failure t2 <> affine_of only_t2_world t2)
      by (vm_compute; discriminate).
    apply Hne. by rewrite Hsame.
  - destruct before as [|x [|? ?]]; try discriminate Himages.
    injection Himages as <- <-.
    injection Hbefore as <-.
    split; [apply (Hlate to_mni); reflexivity|].
    split; [apply Hitems; discriminate|exact Hexec].
Defined.


(** C2 on the code.  With the reference given by name, the loop does not
    skip the reference image: [t1] is handed to the filter like its
    sibling, and since it carries the matrix its affine is corrected and
    overwritten; without a configured key it is handed to the filter all
    the same. *)
Theorem named_reference_is_resampled :
  subject_getitem siblings "t1" = Some (EImage t1) /\
  (exists w',
     apply_transform named_t1 siblings siblings_world = (w', Ok tt) /\
     executed w' = [(t1, sitkLinear); (t2, sitkLinear)] /\
     affine_of siblings_world t1 = Some (VArray (diagonal 1 1 1)) /\
     affine_of w' t1 = Some (VArray (diagonal 2 2 2))) /\
  (exists w',
     apply_transform (transform (PyStr "t1") None None false)
       siblings siblings_world = (w', Ok tt) /\
     executed w' = [(t1, sitkLinear); (t2, sitkLinear)]) /\
  (exists w',
     apply_transform (given_t1 false) siblings siblings_world = (w', Ok tt) /\
     executed w' = [(t2, sitkLinear)] /\
     heap w' !! t1 = heap siblings_world !! t1).
Proof.
  split; [reflexivity|].
  split; [|split]; eexists; (split; [vm_compute; reflexivity|]);
    repeat split; vm_compute; reflexivity.
Qed.

(** C3 on the code.  No file is named [t1] or [t3]; the subject has an
    image under [t1] and none under [t3].  Given as a [str], the name is
    looked up in the subject: [t1] is found and used, [t3] raises the
    [ValueError] naming it.  Given as a [Path], the name is kept as a
    [Path], no branch of [apply_transform] binds the reference image, and
    the first iteration raises [UnboundLocalError] for either name. *)
Theorem path_target_is_never_resolved :
  subject_getitem siblings "t1" = Some (EImage t1) /\
  subject_getitem siblings "t3" = None /\
  (forall name, exists self,
     init (PyPath name) linear None false siblings_world
     = (siblings_world, Ok self) /\
     reference_image self = PyPath name /\
     apply_transform self siblings siblings_world
     = (siblings_world, Raise (UnboundLocalError "reference_image_sitk"))) /\
  (exists self w',
     init (PyStr "t1") linear None false siblings_world
     = (siblings_world, Ok self) /\
     reference_image self = PyStr "t1" /\
     apply_transform self siblings siblings_world = (w', Ok tt) /\
     executed w' = [(t1, sitkLinear); (t2, sitkLinear)]) /\
  (exists self,
     init (PyStr "t3") linear None false siblings_world
     = (siblings_world, Ok self) /\
     apply_transform self siblings siblings_world
     = (siblings_world, Raise (ValueError (msg_reference_not_found "t3")))).
Proof.
  do 2 (split; [reflexivity|]). split; [|split].
  - intros name. eexists. split; [reflexivity|]. split; [reflexivity|].
    vm_compute. reflexivity.
  - do 2 eexists. split; [reflexivity|]. split; [reflexivity|].
    split; vm_compute; reflexivity.
  - eexists. split; [reflexivity|]. vm_compute. reflexivity.
Qed.

(** C9 on the code.  With the integer 5 configured as affine key, the check
    of the key's presence runs first and raises the [ValueError] "not found
    in any image"; the [TypeError] of [check_affine] is never reached. *)
Theorem non_string_affine_key_is_reported_missing :
  apply_transform (transform PyNone (Some [1; 1; 1]%Q) (Some (KInt 5)) false)
    siblings siblings_world
  = (siblings_world, Raise (ValueError (msg_affine_name_not_found (KInt 5)))) /\
  check_affine (KInt 5) mri = Raise (TypeError (msg_affine_name_type ty_int)).
Proof. split; [vm_compute; reflexivity|reflexivity]. Qed.

End Concrete.

(** * Further properties *)

(** ** [parse_spacing] and [get_reference_image] *)



Lemma keep_singleton_length (new_size old_size : list Z) :
  length new_size = length old_size ->
  length (keep_singleton new_size old_size) = length old_size.
Proof. intros H. unfold keep_singleton. rewrite length_zip_with. lia. Qed.













(** ** The loop of [apply_transform] *)

Section LoopFacts.
Context `{B : Backend}.

Ltac unfold_M :=
  unfold mbind, M_bind, mret, M_ret, raise, lift, deref, setitem, execute in *.

Lemma items_stored_other image key value w l k :
  k <> key ->
  items (heap (stored image key value w) !!! l) !! k
  = items (heap w !!! l) !! k.
Proof.
  intros Hk. destruct (decide (l = image)) as [->|Hne].
  - by apply items_stored_ne.
  - unfold stored; simpl. by rewrite lookup_total_insert_ne.
Qed.

Lemma process_image_keeps_other_keys self subject image w w' r :
  process_image self subject image w = (w', r) ->
  forall l k, k <> DATA -> k <> AFFINE ->
    items (heap w' !!! l) !! k = items (heap w !!! l) !! k.
Proof.
  intros Hp l k Hd Ha.
  apply process_image_cases in Hp as [(_ & -> & _)|(_ & i & _ & Hr)]; [done|].
  apply resample_image_cases in Hr as (w1 & Hw1 & Hw').
  assert (H1 : items (heap w1 !!! l) !! k = items (heap w !!! l) !! k).
  { destruct Hw1 as [->|(? & ? & ? & ? & ? & _ & _ & _ & _ & _ & _ & ->)];
      [done|]. by apply items_stored_other. }
  destruct Hw' as [(e & _ & ->)|(_ & ref & flo & ->)]; [done|].
  rewrite !items_stored_other by done. exact H1.
Qed.

(** X7. [apply_transform] writes nothing but the data and the affine of the
    images of the subject: an image that is not in the subject (an
    in-memory reference, say) is as it was, no image changes class, and
    every other entry of every image, the matrix of the correction among
    them, is as it was; this holds whether the call returns or raises. *)
Theorem apply_transform_writes_only_data_and_affine self subject w w' r :
  apply_transform self subject w = (w', r) ->
  (forall l, l ∉ get_images subject -> heap w' !! l = heap w !! l) /\
  (forall l, is_ScalarImage (heap w' !!! l) = is_ScalarImage (heap w !!! l)) /\
  (forall l k, k <> DATA -> k <> AFFINE ->
     items (heap w' !!! l) !! k = items (heap w !!! l) !! k).
Proof.
  intros Hrun. apply apply_transform_cases in Hrun as [(-> & _)|Hloop]; [done|].
  split; [intros l Hl; by apply (for_each_frame _ _ _ _ _ _ _ Hloop)|].
  split.
  - by apply for_each_dispatch in Hloop as (Hclass & _).
  - pattern w'. eapply for_each_invariant; [| |exact Hloop]; cbv beta; [done|].
    intros image w1 w2 r1 _ IH Hstep l k Hd Ha.
    rewrite <- (IH l k Hd Ha).
    by apply (process_image_keeps_other_keys _ _ _ _ _ _ Hstep).
Qed.

(** *** The calls of the filter *)

Lemma planned_class self w w0 image :
  is_ScalarImage (heap w !!! image) = is_ScalarImage (heap w0 !!! image) ->
  planned self w image = planned self w0 image.
Proof.
  intros Hc. unfold planned, choose_interpolation. by rewrite Hc.
Qed.

(** An iteration that returns has made the planned call; one that raises
    has made none. *)
Lemma process_image_calls self subject image w w' r :
  process_image self subject image w = (w', r) ->
  executed w' = executed w ++
    match r with Ok _ => planned self w image | Raise _ => [] end.
Proof.
  intros Hp. unfold planned.
  apply process_image_cases in Hp as [(-> & -> & Hskip)|(Href & i & Hi & Hr)].
  - destruct Hskip as [-> | Hnone]; [by rewrite app_nil_r|].
    rewrite Hnone. destruct (is_reference self image); by rewrite app_nil_r.
  - rewrite Href, Hi.
    apply resample_image_cases in Hr as (w1 & Hw1 & Hw').
    assert (He : executed w1 = executed w).
    { by destruct Hw1 as [->|(? & ? & ? & ? & ? & _ & _ & _ & _ & _ & _ & ->)]. }
    destruct Hw' as [(e & -> & ->)|(-> & ref & flo & ->)].
    + by rewrite app_nil_r.
    + simpl. by rewrite He.
Qed.

Lemma for_each_calls self subject images w0 w w' r :
  (forall l, is_ScalarImage (heap w !!! l) = is_ScalarImage (heap w0 !!! l)) ->
  for_each (process_image self subject) images w = (w', r) ->
  exists calls,
    executed w' = executed w ++ calls /\
    calls `prefix_of` (images ≫= planned self w0) /\
    (r = Ok tt -> calls = images ≫= planned self w0).
Proof.
  revert w. induction images as [|image rest IH]; intros w Hclass.
  - unfold_M. simpl. intros [= <- <-]. exists [].
    split; [by rewrite app_nil_r|]. split; [apply prefix_nil|done].
  - rewrite for_each_cons, bind_cons.
    destruct (process_image self subject image w) as [w1 r1] eqn:Hstep.
    pose proof (process_image_calls _ _ _ _ _ _ Hstep) as Hcalls.
    pose proof (process_image_effect _ _ _ _ _ _ Hstep) as (_ & Hclass1 & _).
    destruct r1 as [[]|e].
    + intros Hrest. apply IH in Hrest as (calls & Hex & Hpre & Hok).
      2:{ intros l. by rewrite Hclass1. }
      rewrite (planned_class self w w0) in Hcalls by apply Hclass.
      exists (planned self w0 image ++ calls).
      split; [by rewrite Hex, Hcalls, app_assoc|].
      split; [by apply prefix_app|]. intros Hr. by rewrite (Hok Hr).
    + intros [= <- <-]. exists []. split; [done|].
      split; [apply prefix_nil|done].
Qed.

(** X8. The filter is called for the images of the subject in their order, once
    for each image that is not skipped, with the interpolator chosen for
    its class: a run that returns has made exactly these calls, a run that
    raises a prefix of them. *)
Theorem calls_follow_the_subject self subject w w' r :
  apply_transform self subject w = (w', r) ->
  exists calls,
    executed w' = executed w ++ calls /\
    calls `prefix_of` (get_images subject ≫= planned self w) /\
    (r = Ok tt -> calls = get_images subject ≫= planned self w).
Proof.
  intros Hrun. apply apply_transform_cases in Hrun as [(-> & name & _ & ->)|Hloop].
  - exists []. split; [by rewrite app_nil_r|]. split; [apply prefix_nil|done].
  - by apply (for_each_calls self subject _ w) in Hloop.
Qed.

(** *** Nothing to resample *)

Lemma for_each_skipped self subject images w :
  (forall l, l ∈ images ->
     is_reference self l = true \/
     choose_interpolation self (heap w !!! l) = None) ->
  for_each (process_image self subject) images w = (w, Ok tt).
Proof.
  induction images as [|image rest IH]; intros Hskip; [done|].
  rewrite for_each_cons.
  assert (Hstep : process_image self subject image w = (w, Ok tt)).
  { unfold process_image.
    destruct (Hskip image (list_elem_of_here _ _)) as [-> | Hnone]; [done|].
    destruct (is_reference self image); [done|].
    unfold mbind, M_bind, deref. by rewrite Hnone. }
  rewrite Hstep. apply IH. intros l Hl. apply Hskip. by apply list_elem_of_further.
Qed.

(** X9. When every image of the subject is skipped (the subject has no image,
    or only the in-memory reference, or only categorical images under
    [scalars_only]) and the configured key, if any, is found in some image,
    [apply_transform] returns and the world is as it was; the reference is
    not looked up, so a name that is not in the subject goes unnoticed. *)
Theorem nothing_to_resample self subject w :
  match pre_affine_name self with
  | Some name =>
      exists l, l ∈ get_images subject /\ contains name (heap w !!! l) = true
  | None => True
  end ->
  (forall l, l ∈ get_images subject ->
     is_reference self l = true \/
     choose_interpolation self (heap w !!! l) = None) ->
  apply_transform self subject w = (w, Ok tt).
Proof.
  intros Hkey Hskip. unfold apply_transform. unfold mbind at 1, M_bind at 1.
  assert (Hcheck : match pre_affine_name self with
                   | Some name => check_affine_key_presence name subject
                   | None => mret tt
                   end w = (w, Ok tt)).
  { destruct (pre_affine_name self) as [name|]; [|done].
    destruct Hkey as (l & Hl & Hin). unfold check_affine_key_presence.
    destruct (existsb _ _) eqn:Hex; [done|].
    assert (existsb (fun l => contains name (heap w !!! l)) (get_images subject)
            = true); [|congruence].
    apply existsb_exists. exists l. split; [by apply list_elem_of_In|done]. }
  rewrite Hcheck. by apply for_each_skipped.
Qed.

(** *** A named reference that is not in the subject *)

Lemma for_each_missing_reference self subject name images w :
  reference_image self = PyStr name ->
  subject_getitem subject name = None ->
  pre_affine_name self = None ->
  (exists l, l ∈ images /\ choose_interpolation self (heap w !!! l) <> None) ->
  for_each (process_image self subject) images w
  = (w, Raise (ValueError (msg_reference_not_found name))).
Proof.
  intros Href Hnone Hname.
  induction images as [|image rest IH]; intros (l & Hl & Hi).
  { by apply elem_of_nil in Hl. }
  rewrite for_each_cons.
  destruct (choose_interpolation self (heap w !!! image)) as [i|] eqn:Hchoice.
  - destruct (named_reference_missing self subject name image i w Href Hnone Hchoice)
      as (w1 & r1 & Hpre & ->).
    unfold apply_pre_affine in Hpre. rewrite Hname in Hpre.
    by injection Hpre as <- <-.
  - assert (Hstep : process_image self subject image w = (w, Ok tt)).
    { unfold process_image. destruct (is_reference self image); [done|].
      unfold mbind, M_bind, deref. by rewrite Hchoice. }
    rewrite Hstep. apply IH. exists l. split; [|done].
    apply elem_of_cons in Hl as [->|Hl]; [congruence|done].
Qed.

(** X10. With the reference given by a name that is not a key of the subject and
    no affine key configured, [apply_transform] raises the [ValueError]
    naming the reference as soon as an image is to be resampled, and the
    world is as it was: the images before it were skipped and nothing was
    written. *)
Theorem missing_named_reference_raises self subject name w :
  reference_image self = PyStr name ->
  subject_getitem subject name = None ->
  pre_affine_name self = None ->
  (exists l, l ∈ get_images subject /\
             choose_interpolation self (heap w !!! l) <> None) ->
  apply_transform self subject w
  = (w, Raise (ValueError (msg_reference_not_found name))).
Proof.
  intros Href Hnone Hname Hsome. unfold apply_transform. rewrite Hname.
  unfold mbind at 1, M_bind at 1, mret, M_ret.
  by apply for_each_missing_reference.
Qed.

(** *** What a run that returns has written *)

Lemma apply_pre_affine_pure self image w wa r :
  apply_pre_affine self image w = (wa, r) ->
  (forall l, l <> image -> heap wa !! l = heap w !! l) /\
  match r with
  | Ok _ => pre_affine_image self (heap w !!! image) = Ok (heap wa !!! image)
  | Raise e => pre_affine_image self (heap w !!! image) = Raise e /\ wa = w
  end.
Proof.
  unfold apply_pre_affine, pre_affine_image.
  destruct (pre_affine_name self) as [name|]; unfold_M; simpl;
    [|by intros [= <- <-]].
  destruct (contains name (heap w !!! image)); [|by intros [= <- <-]].
  destruct (check_affine name (heap w !!! image)) as [[]|e]; simpl;
    [|by intros [= <- <-]].
  destruct (getitem (heap w !!! image) name) as [matrix|e]; simpl;
    [|by intros [= <- <-]].
  destruct (as_numpy matrix) as [a|e]; simpl; [|by intros [= <- <-]].
  destruct (getitem (heap w !!! image) AFFINE) as [affine|e]; simpl;
    [|by intros [= <- <-]].
  destruct (py_matmul a affine) as [new_affine|e]; simpl; [|by intros [= <- <-]].
  intros [= <- <-]. simpl. split.
  - intros l Hne. by rewrite lookup_insert_ne.
  - by rewrite lookup_total_insert_eq.
Qed.

Lemma resample_image_Ok self subject image interpolator w w' :
  resample_image self subject image interpolator w = (w', Ok tt) ->
  exists wa ref,
    apply_pre_affine self image w = (wa, Ok tt) /\
    resolve_reference self subject (as_sitk (Some true) (heap wa !!! image)) wa
    = (wa, Ok ref) /\
    GetDimension ref = GetDimension (as_sitk (Some true) (heap wa !!! image)) /\
    heap w' !!! image = resampled_image interpolator ref (heap wa !!! image).
Proof.
  unfold resample_image. unfold mbind at 1. unfold M_bind at 1.
  destruct (apply_pre_affine self image w) as [wa [[]|e]] eqn:Hpre; [|done].
  unfold mbind at 1, M_bind at 1, deref. unfold mbind at 1, M_bind at 1.
  destruct (resolve_reference _ _ _ wa) as [wb [ref|e]] eqn:Href; [|done].
  pose proof (resolve_reference_pure _ _ _ _ _ _ Href) as ->.
  destruct (_ =? _)%nat eqn:Hdim; [|done].
  unfold_M. unfold resampled_image. simpl.
  destruct (sitk_to_nib _) as [array affine] eqn:Hout. simpl.
  intros [= <-]. exists wa, ref. split; [done|]. split; [done|].
  split; [by apply Nat.eqb_eq|]. simpl.
  rewrite Hout. simpl. by rewrite !lookup_total_insert_eq.
Qed.

Lemma for_each_app body before after w :
  for_each body (before ++ after) w
  = match for_each body before w with
    | (w1, Ok _) => for_each body after w1
    | (w1, Raise e) => (w1, Raise e)
    end.
Proof.
  revert w. induction before as [|image before IH]; intros w; [done|].
  simpl app. rewrite !for_each_cons.
  destruct (body image w) as [w1 [[]|e]]; [apply IH|done].
Qed.

(** In a run that returns, the iteration of each image starts from the
    image as it was before the run and nothing later touches the image,
    when the images are distinct objects. *)
Lemma for_each_Ok_at self subject images w w' l :
  for_each (process_image self subject) images w = (w', Ok tt) ->
  NoDup images -> l ∈ images ->
  exists before w1 w2,
    for_each (process_image self subject) before w = (w1, Ok tt) /\
    process_image self subject l w1 = (w2, Ok tt) /\
    heap w1 !! l = heap w !! l /\
    heap w' !! l = heap w2 !! l.
Proof.
  intros Hloop Hnodup Hl.
  apply list_elem_of_split in Hl as (before & after & ->).
  apply NoDup_app in Hnodup as (_ & Hdisjoint & Hrest).
  apply NoDup_cons in Hrest as (Hafter & _).
  rewrite for_each_app in Hloop.
  destruct (for_each (process_image self subject) before w)
    as [w1 [[]|e]] eqn:Hbefore; [|done].
  rewrite for_each_cons in Hloop.
  destruct (process_image self subject l w1) as [w2 [[]|e]] eqn:Hstep; [|done].
  exists before, w1, w2. do 2 (split; [done|]). split.
  - apply (for_each_frame _ _ _ _ _ _ _ Hbefore).
    intros Hin. apply (Hdisjoint _ Hin), list_elem_of_here.
  - by apply (for_each_frame _ _ _ _ _ _ _ Hloop).
Qed.

Lemma for_each_reference_untouched self subject r images w w' res :
  reference_image self = PyImage r ->
  for_each (process_image self subject) images w = (w', res) ->
  heap w' !! r = heap w !! r.
Proof.
  intros Href Hloop.
  assert (Hisref : is_reference self r = true).
  { unfold is_reference. rewrite Href. by apply bool_decide_eq_true. }
  pattern w'. eapply for_each_invariant; [| |exact Hloop]; cbv beta; [done|].
  intros image w1 w2 r1 _ <- Hstep.
  destruct (decide (r = image)) as [<-|Hne].
  - apply process_image_cases in Hstep as [(_ & -> & _)|(Hno & _)]; [done|].
    congruence.
  - apply process_image_effect in Hstep as (Hframe & _). by apply Hframe.
Qed.

Lemma lookup_total_eq (h h' : gmap loc Image) (l : loc) :
  h !! l = h' !! l -> h !!! l = h' !!! l.
Proof. intros H. by rewrite !lookup_total_alt, H. Qed.

(** X12. With an in-memory reference, a run that returns leaves every image it
    resampled as the output of the filter for that image, corrected by its
    own matrix if it has one, on the grid of the reference as the reference
    was before the run: every image is resampled onto the same grid,
    whatever the order of the subject. *)
Theorem resampled_onto_the_given_reference self subject r w w' :
  reference_image self = PyImage r ->
  NoDup (get_images subject) ->
  apply_transform self subject w = (w', Ok tt) ->
  forall l i,
    l ∈ get_images subject -> l <> r ->
    choose_interpolation self (heap w !!! l) = Some i ->
    exists corrected,
      pre_affine_image self (heap w !!! l) = Ok corrected /\
      heap w' !!! l
      = resampled_image (get_sitk_interpolator i)
          (as_sitk (Some true) (heap w !!! r)) corrected.
Proof.
  intros Href Hnodup Hrun l i Hl Hne Hi.
  apply apply_transform_cases in Hrun as [(_ & ? & _ & ?)|Hloop]; [done|].
  destruct (for_each_Ok_at _ _ _ _ _ _ Hloop Hnodup Hl)
    as (before & w1 & w2 & Hbefore & Hstep & Hl1 & Hl2).
  apply lookup_total_eq in Hl1, Hl2. rewrite Hl2.
  pose proof (for_each_reference_untouched _ _ _ _ _ _ _ Href Hbefore) as Hr1.
  apply lookup_total_eq in Hr1.
  apply process_image_cases in Hstep as [(_ & _ & Hskip)|(_ & i' & Hi' & Hres)].
  { exfalso. destruct Hskip as [Hskip|Hskip].
    - unfold is_reference in Hskip. rewrite Href in Hskip.
      by apply bool_decide_eq_true in Hskip.
    - rewrite Hl1 in Hskip. congruence. }
  rewrite Hl1, Hi in Hi'. injection Hi' as <-.
  apply resample_image_Ok in Hres as (wa & ref & Hpre & Hresolve & _ & Hfinal).
  apply apply_pre_affine_pure in Hpre as (Hframe & Hpure).
  exists (heap wa !!! l). split; [by rewrite <- Hl1|].
  rewrite Hfinal. f_equal.
  unfold resolve_reference in Hresolve. rewrite Href in Hresolve.
  unfold_M. injection Hresolve as <-.
  f_equal. rewrite <- Hr1. apply lookup_total_eq. apply Hframe. congruence.
Qed.

(** X13. With a spacing as target, a run that returns leaves every image it
    resampled as the output of the filter for that image, corrected by its
    own matrix if it has one, on the grid that [get_reference_image] builds
    from that image and the target spacing. *)
Theorem resampled_onto_its_own_grid self subject spacing w w' :
  reference_image self = PyNone ->
  target_spacing self = Some spacing ->
  NoDup (get_images subject) ->
  apply_transform self subject w = (w', Ok tt) ->
  forall l i,
    l ∈ get_images subject ->
    choose_interpolation self (heap w !!! l) = Some i ->
    exists corrected ref,
      pre_affine_image self (heap w !!! l) = Ok corrected /\
      get_reference_image (as_sitk (Some true) corrected) spacing = Ok ref /\
      heap w' !!! l = resampled_image (get_sitk_interpolator i) ref corrected.
Proof.
  intros Href Hspacing Hnodup Hrun l i Hl Hi.
  apply apply_transform_cases in Hrun as [(_ & ? & _ & ?)|Hloop]; [done|].
  destruct (for_each_Ok_at _ _ _ _ _ _ Hloop Hnodup Hl)
    as (before & w1 & w2 & Hbefore & Hstep & Hl1 & Hl2).
  apply lookup_total_eq in Hl1, Hl2. rewrite Hl2.
  apply process_image_cases in Hstep as [(_ & _ & Hskip)|(_ & i' & Hi' & Hres)].
  { exfalso. destruct Hskip as [Hskip|Hskip].
    - unfold is_reference in Hskip. by rewrite Href in Hskip.
    - rewrite Hl1 in Hskip. congruence. }
  rewrite Hl1, Hi in Hi'. injection Hi' as <-.
  apply resample_image_Ok in Hres as (wa & ref & Hpre & Hresolve & _ & Hfinal).
  apply apply_pre_affine_pure in Hpre as (_ & Hpure).
  exists (heap wa !!! l), ref. split; [by rewrite <- Hl1|].
  split; [|done].
  unfold resolve_reference in Hresolve. rewrite Href, Hspacing in Hresolve.
  unfold lift in Hresolve. by injection Hresolve.
Qed.

(** *** A spacing as target *)

Lemma get_reference_image_dimension image spacing :
  length (GetSpacing image) = GetDimension image ->
  length spacing = GetDimension image ->
  exists ref,
    get_reference_image image spacing = Ok ref /\
    GetDimension ref = GetDimension image.
Proof.
  intros Hs Hlen. eexists. split; [by apply get_reference_image_ok|].
  unfold GetDimension at 1. simpl. apply keep_singleton_length.
  rewrite length_map, !length_zip_with. unfold GetDimension in *. lia.
Qed.

Lemma process_image_spacing_Ok self subject spacing image w :
  reference_image self = PyNone ->
  target_spacing self = Some spacing ->
  pre_affine_name self = None ->
  length (GetSpacing (as_sitk (Some true) (heap w !!! image)))
  = GetDimension (as_sitk (Some true) (heap w !!! image)) ->
  length spacing = GetDimension (as_sitk (Some true) (heap w !!! image)) ->
  exists w', process_image self subject image w = (w', Ok tt).
Proof.
  intros Href Hspacing Hname Hs Hlen.
  destruct (get_reference_image_dimension _ _ Hs Hlen) as (ref & Hok & Hdim).
  unfold process_image, is_reference. rewrite Href.
  unfold mbind at 1, M_bind at 1, deref.
  destruct (choose_interpolation self (heap w !!! image)) as [i|]; [|by eexists].
  unfold resample_image, apply_pre_affine, resolve_reference.
  rewrite Hname, Href, Hspacing. unfold_M. simpl.
  rewrite Hok, Hdim, Nat.eqb_refl.
  destruct (sitk_to_nib _). by eexists.
Qed.

Lemma for_each_spacing_Ok self subject spacing images w0 w :
  reference_image self = PyNone ->
  target_spacing self = Some spacing ->
  pre_affine_name self = None ->
  NoDup images ->
  (forall l, l ∈ images -> heap w !! l = heap w0 !! l) ->
  (forall l, l ∈ images ->
     length (GetSpacing (as_sitk (Some true) (heap w0 !!! l)))
     = GetDimension (as_sitk (Some true) (heap w0 !!! l)) /\
     length spacing = GetDimension (as_sitk (Some true) (heap w0 !!! l))) ->
  exists w', for_each (process_image self subject) images w = (w', Ok tt).
Proof.
  intros Href Hspacing Hname. revert w.
  induction images as [|image rest IH]; intros w Hnodup Hsame Hwf; [by eexists|].
  apply NoDup_cons in Hnodup as (Hnotin & Hnodup).
  rewrite for_each_cons.
  destruct (Hwf image (list_elem_of_here _ _)) as (Hs & Hlen).
  pose proof (lookup_total_eq _ _ _ (Hsame image (list_elem_of_here _ _))) as Himg.
  rewrite <- Himg in Hs, Hlen.
  destruct (process_image_spacing_Ok self subject spacing image w
              Href Hspacing Hname Hs Hlen) as (w1 & Hstep).
  rewrite Hstep. apply IH; [done| |].
  - intros l Hl. rewrite <- (Hsame l) by by apply list_elem_of_further.
    apply process_image_effect in Hstep as (Hframe & _).
    apply Hframe. intros ->. done.
  - intros l Hl. apply Hwf. by apply list_elem_of_further.
Qed.

(** X14. With a spacing as target and no affine key configured, the transform
    cannot fail on a subject whose images are distinct objects and convert
    to SimpleITK images whose spacing has their dimension, the dimension of
    the target: the grid is built for every image and has the dimension of
    the image, so the assertion on the dimensions holds. *)
Theorem spacing_target_returns self subject spacing w :
  reference_image self = PyNone ->
  target_spacing self = Some spacing ->
  pre_affine_name self = None ->
  NoDup (get_images subject) ->
  (forall l, l ∈ get_images subject ->
     length (GetSpacing (as_sitk (Some true) (heap w !!! l)))
     = GetDimension (as_sitk (Some true) (heap w !!! l)) /\
     length spacing = GetDimension (as_sitk (Some true) (heap w !!! l))) ->
  exists w', apply_transform self subject w = (w', Ok tt).
Proof.
  intros Href Hspacing Hname Hnodup Hwf.
  unfold apply_transform. rewrite Hname.
  unfold mbind at 1, M_bind at 1, mret, M_ret.
  by apply (for_each_spacing_Ok self subject spacing _ w).
Qed.

(** *** The matrix of the correction *)

(** X15. An image that is to be resampled and holds under the configured key
    something that is not a 4x4 array or tensor makes its iteration raise,
    the [TypeError] naming the type or the [ValueError] naming the shape,
    and the world is as it was: the matrix is checked before the affine is
    written. *)
Theorem invalid_matrix_is_rejected_before_mutation
    self subject name image matrix e i w :
  pre_affine_name self = Some (KStr name) ->
  is_reference self image = false ->
  choose_interpolation self (heap w !!! image) = Some i ->
  items (heap w !!! image) !! KStr name = Some matrix ->
  matrix_error matrix = Some e ->
  process_image self subject image w = (w, Raise e).
Proof.
  intros Hname Href Hi Hm He.
  unfold process_image. rewrite Href.
  unfold mbind at 1, M_bind at 1, deref. rewrite Hi.
  unfold resample_image. unfold mbind at 1, M_bind at 1.
  assert (Hpre : apply_pre_affine self image w = (w, Raise e)); [|by rewrite Hpre].
  unfold apply_pre_affine. rewrite Hname.
  unfold mbind at 1, M_bind at 1, deref.
  assert (Hin : contains (KStr name) (heap w !!! image) = true).
  { unfold contains. apply bool_decide_eq_true. by exists matrix. }
  rewrite Hin. unfold mbind at 1, M_bind at 1, lift.
  assert (Hc : check_affine (KStr name) (heap w !!! image) = Raise e);
    [|by rewrite Hc].
  unfold check_affine. rewrite Hm. unfold matrix_error in He.
  destruct matrix as [| | |a|a]; try (by injection He as <-);
    (case_bool_decide; [done|by injection He as <-]).
Qed.

(** *** Construction *)



(** *** Where an exception comes from *)

Lemma resample_image_exn self subject image interpolator w w' e :
  resample_image self subject image interpolator w = (w', Raise e) ->
  (exists wa, apply_pre_affine self image w = (wa, Raise e)) \/
  (exists wa floating,
     resolve_reference self subject floating wa = (wa, Raise e)) \/
  e = AssertionError.
Proof.
  unfold resample_image. unfold mbind at 1. unfold M_bind at 1.
  destruct (apply_pre_affine self image w) as [wa [[]|e1]] eqn:Hpre.
  2:{ intros [= <- <-]. left. by exists wa. }
  unfold mbind at 1, M_bind at 1, deref. unfold mbind at 1, M_bind at 1.
  destruct (resolve_reference _ _ _ wa) as [wb [ref|e2]] eqn:Href.
  2:{ intros [= <- <-]. right. left.
      pose proof (resolve_reference_pure _ _ _ _ _ _ Href) as ->. eauto. }
  destruct (_ =? _)%nat.
  2:{ unfold raise. intros [= <- <-]. by right; right. }
  unfold_M. simpl. destruct (sitk_to_nib _). done.
Qed.

Lemma apply_pre_affine_exn self subject image w wa e :
  apply_pre_affine self image w = (wa, Raise e) ->
  wa = w /\ ~ raised_by_reference e /\
  (forall k, e <> ValueError (msg_affine_name_not_found k)) /\
  provenance self subject w wa e.
Proof.
  intros Hpre.
  pose proof (apply_pre_affine_result _ _ _ _ _ Hpre) as (-> & Hnot).
  split; [done|]. split; [done|].
  revert Hpre. unfold apply_pre_affine.
  destruct (pre_affine_name self) as [name|] eqn:Hname; unfold_M; simpl; [|done].
  destruct (contains name (heap w !!! image)) eqn:Hin; [|done].
  unfold contains in Hin. apply bool_decide_eq_true in Hin as [matrix Hm].
  destruct (check_affine name (heap w !!! image)) as [[]|e1] eqn:Hc.
  2:{ intros [= <-]. unfold check_affine in Hc. rewrite Hm in Hc.
      destruct name as [s|z].
      - destruct matrix; try (injection Hc as <-; split; [done|]; simpl; eauto);
          (case_bool_decide; [done|injection Hc as <-; split; [done|]; simpl; eauto]).
      - injection Hc as <-. split; [done|]. simpl. eauto. }
  destruct (check_affine_Ok _ _ Hc _ Hm) as (a & Ha & Hshape).
  unfold getitem. rewrite Hm, Ha.
  destruct (items (heap w !!! image) !! AFFINE) as [affine|] eqn:Haff;
    [|by intros [= <-]].
  destruct (py_matmul a affine) as [new_affine|e1] eqn:Hmul; [done|].
  intros [= <-]. unfold py_matmul in Hmul.
  destruct affine as [| | |b|b]; try (by injection Hmul as <-).
  unfold matmul in Hmul.
  repeat (match type of Hmul with
          | context [match ?x with _ => _ end] => destruct x
          end; simpl in Hmul; try done;
          try (by injection Hmul as <-)).
Qed.

Lemma resolve_reference_exn self subject floating w wa e :
  resolve_reference self subject floating w = (wa, Raise e) ->
  (forall k, e <> ValueError (msg_affine_name_not_found k)) /\
  provenance self subject w wa e.
Proof.
  unfold resolve_reference. unfold_M.
  destruct (reference_image self) as [| |name| | | |l] eqn:Href;
    try (intros [= <- <-]; split; [done|]; simpl; by rewrite Href);
    try done.
  - destruct (target_spacing self) as [spacing|]; [|by intros [= <- <-]].
    unfold get_reference_image, np_zip.
    repeat (destruct (_ =? _)%nat; simpl; [|by intros [= <- <-]]). done.
  - destruct (subject_getitem subject name) as [[r|v]|] eqn:Hget;
      [done| |]; intros [= <- <-]; (split; [done|]); simpl; eauto.
Qed.

(** X16. An exception of [apply_transform] tells where it comes from.  The
    [ValueError] about the affine name is raised only by the check before
    the loop: the name is configured, no image of the subject has it and
    the world is as it was.  The [ValueError] about the reference name is
    raised only when the reference is that [str] and it is not a key of the
    subject; [AttributeError] only when the key names an entry that is not
    an image; [UnboundLocalError] only when the reference is none of
    [None], a [str] and an image; the [TypeError] about the affine name
    only when the configured name is not a string; the errors about the
    matrix only when a string name is configured; and the errors of
    [parse_spacing] never. *)
Theorem exception_provenance self subject w w' e :
  apply_transform self subject w = (w', Raise e) ->
  provenance self subject w w' e.
Proof.
  intros Hrun. unfold apply_transform in Hrun.
  unfold mbind at 1, M_bind at 1 in Hrun.
  destruct (match pre_affine_name self with
            | Some name => check_affine_key_presence name subject
            | None => mret tt
            end w) as [w0 [[]|e0]] eqn:Hcheck.
  - assert (w0 = w) as ->.
    { destruct (pre_affine_name self); [|by injection Hcheck].
      unfold check_affine_key_presence in Hcheck.
      destruct (existsb _ _); by injection Hcheck. }
    apply for_each_raise in Hrun
      as (before & image & after & w1 & _ & _ & Hstep).
    apply process_image_cases in Hstep as [(? & _)|(_ & i & _ & Hres)]; [done|].
    apply resample_image_exn in Hres
      as [(wa & Hpre)|[(wa & flo & Href)| ->]]; [| |done].
    + apply (apply_pre_affine_exn self subject) in Hpre
        as (-> & _ & Hk & Hprov).
      destruct e as [m|m| | | |]; try destruct m; simpl in *; try done.
      by destruct (Hk k).
    + apply resolve_reference_exn in Href as (Hk & Hprov).
      destruct e as [m|m| | | |]; try destruct m; simpl in *; try done.
      by destruct (Hk k).
  - injection Hrun as <- <-.
    destruct (pre_affine_name self) as [name|] eqn:Hname; [|done].
    unfold check_affine_key_presence in Hcheck.
    destruct (existsb _ _) eqn:Hex; [done|]. injection Hcheck as <- <-.
    simpl. split; [done|]. split; [done|]. intros l Hl.
    destruct (contains name (heap w !!! l)) eqn:Hin; [|done].
    assert (existsb (fun l => contains name (heap w !!! l)) (get_images subject)
            = true); [|congruence].
    apply existsb_exists. exists l. split; [by apply list_elem_of_In|done].
Qed.

End LoopFacts.

(** ** The further properties on concrete subjects *)

Section MoreConcrete.
Import Examples MoreExamples.
Local Existing Instance AxisAligned.backend.

Lemma apply_transform_writes_only_data_and_affine_witness :
  heap run_named_t1.1 !! 7%positive = heap siblings_world !! 7%positive /\
  items (heap run_named_t1.1 !!! t1) !! to_mni
  = items (heap siblings_world !!! t1) !! to_mni.
Proof.
  destruct (apply_transform_writes_only_data_and_affine named_t1 siblings
              siblings_world run_named_t1.1 run_named_t1.2)
    as (Hout & _ & Hkeys); [vm_compute; reflexivity|].
  split; [apply Hout|apply Hkeys; discriminate].
  simpl. intros Hin. repeat (apply elem_of_cons in Hin as [Hin|Hin]; [discriminate|]).
  by apply elem_of_nil in Hin.
Defined.

Lemma calls_follow_the_subject_witness :
  exists calls,
    executed run_named_t1.1 = executed siblings_world ++ calls /\
    calls = [(t1, sitkLinear); (t2, sitkLinear)].
Proof.
  destruct (calls_follow_the_subject named_t1 siblings siblings_world
              run_named_t1.1 run_named_t1.2)
    as (calls & Hcalls & _ & Hall); [vm_compute; reflexivity|].
  exists calls. split; [done|]. rewrite Hall; [|vm_compute; reflexivity].
  vm_compute. reflexivity.
Defined.

Lemma nothing_to_resample_witness :
  apply_transform (given_t1 true) with_labels with_labels_world
  = (with_labels_world, Ok tt).
Proof.
  apply (nothing_to_resample (given_t1 true) with_labels with_labels_world).
  - exact I.
  - simpl. intros l Hl.
    apply elem_of_cons in Hl as [->|Hl]; [left; reflexivity|].
    apply elem_of_cons in Hl as [->|Hl]; [right; vm_compute; reflexivity|].
    by apply elem_of_nil in Hl.
Defined.

Lemma missing_named_reference_raises_witness :
  apply_transform named_t3 siblings siblings_world
  = (siblings_world, Raise (ValueError (msg_reference_not_found "t3"))).
Proof.
  apply (missing_named_reference_raises named_t3 siblings "t3" siblings_world).
  - reflexivity.
  - reflexivity.
  - reflexivity.
  - exists t1. split; [simpl; apply list_elem_of_here|].
    vm_compute. discriminate.
Defined.

Lemma in_memory_reference_skipped_witness :
  heap run_given_t1.1 !! t1 = heap siblings_world !! t1 /\
  exists calls, executed run_given_t1.1 = executed siblings_world ++ calls /\
                forall k, (t1, k) ∉ calls.
Proof.
  apply (in_memory_reference_skipped (given_t1 false) siblings t1 siblings_world
           run_given_t1.1 run_given_t1.2).
  - reflexivity.
  - vm_compute. reflexivity.
Defined.

Lemma resampled_onto_the_given_reference_witness :
  exists corrected,
    pre_affine_image (given_t1 false) (heap siblings_world !!! t2) = Ok corrected /\
    heap run_given_t1.1 !!! t2
    = resampled_image sitkLinear
        (as_sitk (Some true) (heap siblings_world !!! t1)) corrected.
Proof.
  change sitkLinear with (get_sitk_interpolator linear).
  apply (resampled_onto_the_given_reference (given_t1 false) siblings t1
           siblings_world run_given_t1.1 eq_refl).
  - simpl. repeat constructor; intros Hin;
      repeat (apply elem_of_cons in Hin as [Hin|Hin]; [discriminate|]);
      by apply elem_of_nil in Hin.
  - vm_compute. reflexivity.
  - simpl. apply list_elem_of_further, list_elem_of_here.
  - discriminate.
  - vm_compute. reflexivity.
Defined.

Lemma resampled_onto_its_own_grid_witness :
  exists corrected ref,
    pre_affine_image to_2mm (heap siblings_world !!! t2) = Ok corrected /\
    get_reference_image (as_sitk (Some true) corrected) [2; 2; 2]%Q = Ok ref /\
    heap run_to_2mm.1 !!! t2 = resampled_image sitkLinear ref corrected.
Proof.
  change sitkLinear with (get_sitk_interpolator linear).
  apply (resampled_onto_its_own_grid to_2mm siblings [2; 2; 2]%Q
           siblings_world run_to_2mm.1 eq_refl eq_refl).
  - simpl. repeat constructor; intros Hin;
      repeat (apply elem_of_cons in Hin as [Hin|Hin]; [discriminate|]);
      by apply elem_of_nil in Hin.
  - vm_compute. reflexivity.
  - simpl. apply list_elem_of_further, list_elem_of_here.
  - vm_compute. reflexivity.
Defined.

Lemma spacing_target_returns_witness :
  exists w', apply_transform to_2mm siblings siblings_world = (w', Ok tt).
Proof.
  apply (spacing_target_returns to_2mm siblings [2; 2; 2]%Q siblings_world
           eq_refl eq_refl eq_refl).
  - simpl. repeat constructor; intros Hin;
      repeat (apply elem_of_cons in Hin as [Hin|Hin]; [discriminate|]);
      by apply elem_of_nil in Hin.
  - simpl. intros l Hl.
    apply elem_of_cons in Hl as [->|Hl]; [split; vm_compute; reflexivity|].
    apply elem_of_cons in Hl as [->|Hl]; [split; vm_compute; reflexivity|].
    by apply elem_of_nil in Hl.
Defined.

Lemma invalid_matrix_is_rejected_before_mutation_witness :
  process_image named_t1 [("t1", EImage t1)] t1 bad_world
  = (bad_world, Raise (ValueError (msg_affine_matrix_shape [3; 3]%nat))).
Proof.
  apply (invalid_matrix_is_rejected_before_mutation named_t1 [("t1", EImage t1)]
           "to_mni" t1 bad_matrix _ linear bad_world);
    try reflexivity; vm_compute; reflexivity.
Defined.



Lemma exception_provenance_witness :
  reference_image named_t3 = PyStr "t3" /\ subject_getitem siblings "t3" = None.
Proof.
  apply (exception_provenance named_t3 siblings siblings_world siblings_world
           (ValueError (msg_reference_not_found "t3"))).
  vm_compute. reflexivity.
Defined.

End MoreConcrete.
